(** * cli53 acceptance-test harness: step definitions

    A shallow embedding of [internal/features/step_definitions.go] and the
    properties of its argument tokenizer, zone-file normalizer, zone diff
    and fixture registry.

    Go strings are byte sequences, modelled as [string] (a list of 8-bit
    [ascii] characters).  Go maps used as sets are [gmap string bool].
    The provider (Route 53), the binary under test and the test framework
    are external: they appear as an environment record of transition
    functions over an abstract external state. *)

From Stdlib Require Import Ascii String NArith HexString.
From Stdlib Require DecimalString.
From stdpp Require Import base option list gmap strings fin_maps fin_sets.

(** ** The [strings] package, as far as the harness uses it *)

Module strings.

(** [strings.HasPrefix(s, prefix)] *)
Definition HasPrefix (s prefix : string) : bool := String.prefix prefix s.

(** Drop the first [n] bytes: the slice expression [s[n:]] for
    [n <= len(s)]. *)
Fixpoint drop (n : nat) (s : string) : string :=
  match n, s with
  | O, _ => s
  | S _, EmptyString => EmptyString
  | S k, String _ s' => drop k s'
  end.

(** Keep the first [n] bytes: the slice expression [s[:n]]. *)
Fixpoint take (n : nat) (s : string) : string :=
  match n, s with
  | O, _ => EmptyString
  | S _, EmptyString => EmptyString
  | S k, String c s' => String c (take k s')
  end.

(** [strings.HasSuffix(s, suffix)]:
    [len(s) >= len(suffix) && s[len(s)-len(suffix):] == suffix] *)
Definition HasSuffix (s suffix : string) : bool :=
  (String.length suffix <=? String.length s)%nat
  && String.eqb (drop (String.length s - String.length suffix) s) suffix.

(** [strings.TrimPrefix(s, prefix)] *)
Definition TrimPrefix (s prefix : string) : string :=
  if HasPrefix s prefix then drop (String.length prefix) s else s.

(** [strings.TrimSuffix(s, suffix)] *)
Definition TrimSuffix (s suffix : string) : string :=
  if HasSuffix s suffix
  then take (String.length s - String.length suffix) s
  else s.

(** [strings.Contains(s, substr)] *)
Fixpoint Contains (s substr : string) : bool :=
  String.prefix substr s
  || match s with
     | EmptyString => false
     | String _ s' => Contains s' substr
     end.

(** [strings.Split(s, sep)] for a one-byte separator, the only form the
    harness uses ([" "] and ["\n"]): every occurrence of [sep] ends a
    field, so [n] separators give [n+1] fields and the empty string
    gives the single field [""]. *)
Fixpoint Split (s : string) (sep : ascii) : list string :=
  match s with
  | EmptyString => [EmptyString]
  | String c s' =>
      if Ascii.eqb c sep then EmptyString :: Split s' sep
      else match Split s' sep with
           | f :: fs => String c f :: fs
           | [] => [String c EmptyString]
           end
  end.

(** [strings.Replace(s, old, new, -1)] for a non-empty [old]: all
    non-overlapping occurrences, leftmost first.  [skip] counts the
    bytes of a matched occurrence still to be passed over. *)
Fixpoint replaceFrom (skip : nat) (s old new : string) : string :=
  match s with
  | EmptyString => EmptyString
  | String c s' =>
      match skip with
      | S k => replaceFrom k s' old new
      | O =>
          if String.prefix old s
          then new +:+ replaceFrom (String.length old - 1) s' old new
          else String c (replaceFrom 0 s' old new)
      end
  end.

Definition Replace (s old new : string) : string := replaceFrom 0 s old new.

(** The one-byte strings the harness tests for and substitutes. *)
Definition squote : string := String "039"%char EmptyString.
Definition dquote : string := String "034"%char EmptyString.
Definition tab : string := String "009"%char EmptyString.
Definition nl : string := String "010"%char EmptyString.

(** [strings.Join(a, sep)] (used to state properties, not by the code) *)
Fixpoint Join (a : list string) (sep : string) : string :=
  match a with
  | [] => EmptyString
  | [x] => x
  | x :: rest => x +:+ sep +:+ Join rest sep
  end.

End strings.

(** ** Argument tokenizer *)

(** Loop state of [safeSplit]: the three local variables. *)
Record splitState := SplitState {
  result : list string;
  inquote : string;
  block : string
}.

(** [string(i[0])]; reached only when [i] has a quote as prefix, so the
    index is in range. *)
Definition firstByte (i : string) : string :=
  match i with
  | String c _ => String c EmptyString
  | EmptyString => EmptyString
  end.

(** One iteration of [for _, i := range split]. *)
Definition safeSplit_step (st : splitState) (i : string) : splitState :=
  if String.eqb (inquote st) EmptyString then
    if strings.HasPrefix i strings.squote
       || strings.HasPrefix i strings.dquote then
      let q := firstByte i in
      SplitState (result st) q (strings.TrimPrefix i q +:+ " ")
    else
      SplitState (result st ++ [i]) (inquote st) (block st)
  else
    if negb (strings.HasSuffix i (inquote st)) then
      SplitState (result st) (inquote st) (block st +:+ i +:+ " ")
    else
      SplitState (result st ++ [block st +:+ strings.TrimSuffix i (inquote st)])
                 EmptyString EmptyString.

Definition safeSplit_loop (st : splitState) (split : list string) : splitState :=
  fold_left safeSplit_step split st.

(** The zero values the three variables are declared with. *)
Definition init : splitState := SplitState [] EmptyString EmptyString.

(** [func safeSplit(s string) []string] *)
Definition safeSplit (s : string) : list string :=
  result (safeSplit_loop init (strings.Split s " "%char)).

(** *** Well-formed command lines

    A command line is a sequence of items separated by single spaces.
    An item is a plain word, or a quoted span: a fragment that starts
    with a quote character, any number of further fragments, and a later
    fragment that ends with the same quote character. *)

Inductive quote := SingleQuote | DoubleQuote.

Definition quoteStr (q : quote) : string :=
  match q with
  | SingleQuote => strings.squote
  | DoubleQuote => strings.dquote
  end.

Inductive item :=
| Word (w : string)
| Quoted (q : quote) (first : string) (middle : list string) (last : string).

(** The space-delimited fragments an item is written as. *)
Definition fragments (it : item) : list string :=
  match it with
  | Word w => [w]
  | Quoted q first middle last =>
      (quoteStr q +:+ first) :: middle ++ [last +:+ quoteStr q]
  end.

(** The argument an item stands for: the word, or the text between the
    quotes with its spaces. *)
Definition token (it : item) : string :=
  match it with
  | Word w => w
  | Quoted q first middle last => strings.Join (first :: middle ++ [last]) " "
  end.

Definition nospace (w : string) : bool := negb (strings.Contains w " ").

(** A word has no space and opens no span; inside a span no fragment
    has a space and no fragment before the last ends with the quote. *)
Definition well_formed (it : item) : bool :=
  match it with
  | Word w =>
      nospace w
      && negb (strings.HasPrefix w strings.squote)
      && negb (strings.HasPrefix w strings.dquote)
  | Quoted q first middle last =>
      nospace first
      && forallb (λ m, nospace m && negb (strings.HasSuffix m (quoteStr q))) middle
      && nospace last
  end.

Definition render (items : list item) : string :=
  strings.Join (concat (map fragments items)) " ".

(** The text a run of fragments adds to an open block. *)
Definition spaced (fs : list string) : string :=
  fold_right (λ f acc, f +:+ " " +:+ acc) EmptyString fs.

(** Every token either has a space in it (it came from a span) or does
    not start with a quote (it is a plain fragment); an open block
    always has a space in it. *)
Definition spaced_or_plain (t : string) : Prop :=
  strings.Contains t " " = true
  ∨ (strings.HasPrefix t strings.squote = false
     ∧ strings.HasPrefix t strings.dquote = false).

Definition token_inv (st : splitState) : Prop :=
  Forall spaced_or_plain (result st)
  ∧ (inquote st ≠ EmptyString → strings.Contains (block st) " " = true).

(** ** Zone record normalizer and zone diff *)

(** [func prepareZoneFile(b []byte, includeAuth bool) map[string]bool];
    the body of the loop first, then the function. *)
Definition prepareZoneFile_step (includeAuth : bool)
    (ret : gmap string bool) (line : string) : gmap string bool :=
  if strings.HasPrefix line "$ORIGIN" then ret
  else if negb includeAuth
          && (strings.Contains line " NS " || strings.Contains line " SOA ")
  then ret
  else <[line := true]> ret.

Definition zoneLines (b : string) : list string :=
  strings.Split (strings.Replace b strings.tab " ") "010"%char.

Definition prepareZoneFile (b : string) (includeAuth : bool) : gmap string bool :=
  fold_left (prepareZoneFile_step includeAuth) (zoneLines b) ∅.

(** The two tests of the loop, as one: the line is stored. *)
Definition kept (includeAuth : bool) (line : string) : bool :=
  negb (strings.HasPrefix line "$ORIGIN")
  && negb (negb includeAuth
           && (strings.Contains line " NS " || strings.Contains line " SOA ")).

(** [fmt.Sprintf] of the two report formats. *)
Definition missingMsg (record : string) : string :=
  "Expected record '" +:+ record +:+ "' missing" +:+ strings.nl.

Definition unexpectedMsg (record : string) : string :=
  "Unexpected record '" +:+ record +:+ "' present" +:+ strings.nl.

(** The first loop of [compareDomains]: [mactual] and [errors] are the
    variables it updates. *)
Definition compare_expected_step (st : gmap string bool * string)
    (record : string) : gmap string bool * string :=
  let '(mactual, errors) := st in
  match mactual !! record with
  | Some _ => (delete record mactual, errors)
  | None => (mactual, errors +:+ missingMsg record)
  end.

(** The second loop. *)
Definition compare_actual_step (errors : string) (record : string) : string :=
  errors +:+ unexpectedMsg record.

(** Go leaves the order of [for record := range m] unspecified: each
    [range] visits every key of the map once, in an order of the
    runtime's choosing.  [range_order m ks] says that [ks] is such an
    order. *)
Definition range_order (m : gmap string bool) (ks : list string) : Prop :=
  ks ≡ₚ elements (dom m).

(** [compareDomains] with the two visiting orders made explicit. *)
Definition compareDomains_in (kexpected : list string)
    (kactual : gmap string bool -> list string)
    (expected actual : string) (includeAuth : bool) : string :=
  let mexpected := prepareZoneFile expected includeAuth in
  let mactual := prepareZoneFile actual includeAuth in
  let '(mactual', errors) :=
    fold_left compare_expected_step kexpected (mactual, EmptyString) in
  fold_left compare_actual_step (kactual mactual') errors.

(** The working copy of [mactual] after the first loop. *)
Definition compare_remaining (kexpected : list string)
    (actual : string) (includeAuth : bool) : gmap string bool :=
  (fold_left compare_expected_step kexpected
     (prepareZoneFile actual includeAuth, EmptyString)).1.

(** [errors] is a report [compareDomains(expected, actual, includeAuth)]
    can return: the value computed under some admissible pair of
    visiting orders. *)
Definition compareDomains_returns (expected actual : string)
    (includeAuth : bool) (errors : string) : Prop :=
  ∃ kexpected kactual,
    range_order (prepareZoneFile expected includeAuth) kexpected
    ∧ range_order (compare_remaining kexpected actual includeAuth) kactual
    ∧ errors = compareDomains_in kexpected (λ _, kactual)
                 expected actual includeAuth.

(** What the first loop leaves of [mactual]: the keys it visited are
    gone. *)
Definition deletes (ks : list string) (m : gmap string bool) : gmap string bool :=
  fold_left (λ m k, delete k m) ks m.

(** The messages of a report, one after the other. *)
Definition concatMsgs (msgs : list string) : string :=
  fold_right String.append EmptyString msgs.

(** One run of [compareDomains], visiting the keys in the order of
    [elements]. *)
Definition compareDomains (expected actual : string) (includeAuth : bool) : string :=
  compareDomains_in
    (elements (dom (prepareZoneFile expected includeAuth)))
    (λ m, elements (dom m))
    expected actual includeAuth.

(** *** Zone files to run the normalizer and the diff on *)

(** An origin directive, an NS record and an A record. *)
Definition zone_origin_ns_a : string :=
  "$ORIGIN example.com." +:+ strings.nl
  +:+ "example.com. 300 IN NS ns1.example.com." +:+ strings.nl
  +:+ "a.example.com. 300 IN A 1.2.3.4".

(** A blob of two lines. *)
Definition lines2 (x y : string) : string := x +:+ strings.nl +:+ y.

(** One A record, written with spaces and written with tabs, each with
    its final newline. *)
Definition a_record_spaces : string :=
  "a.example.com. 300 IN A 1.2.3.4" +:+ strings.nl.

Definition a_record_tabs : string :=
  "a.example.com." +:+ strings.tab +:+ "300" +:+ strings.tab +:+ "IN"
  +:+ strings.tab +:+ "A" +:+ strings.tab +:+ "1.2.3.4" +:+ strings.nl.

(** ** The provider, the binary under test and the framework *)

(** An [error] value, by its message ([err.Error()]); [None] is [nil]. *)
Definition error : Type := string.

(** [route53.ResourceRecordSet], [route53.Change] and
    [route53.HostedZone], with the fields the harness reads. *)
Record ResourceRecordSet := {
  rrsetName : string;
  rrsetType : string;
  rrsetRecords : list string
}.

Record Change := {
  Action : string;
  ChangeRecordSet : ResourceRecordSet
}.

Record HostedZone := {
  Name : string;
  Id : string
}.

(** Calls that leave the process, in the order they were issued. *)
Inductive Call :=
| CallListHostedZones
| CallCreateHostedZone (callerReference name : string)
| CallListAllRecordSets (id : string)
| CallChangeResourceRecordSets (id : string) (changes : list Change)
| CallDeleteHostedZone (id : string)
| CallCommand (path : string) (args : list string).

(** What is outside the harness: the provider API, the subprocess and
    the random generator, as transitions of an external state [X].
    Each provider call returns Go's pair of a value and an error. *)
Record Env (X : Type) := {
  ListHostedZones : X → X * (list HostedZone * option error);
  CreateHostedZone : string → string → X → X * (HostedZone * option error);
  ListAllRecordSets : string → X → X * (list ResourceRecordSet * option error);
  ChangeResourceRecordSets : string → list Change → X → X * option error;
  DeleteHostedZone : string → X → X * option error;
  CombinedOutput : string → list string → X → X * (string * option error);
  randInt : X → X * N
}.

Arguments ListHostedZones {X}.
Arguments CreateHostedZone {X}.
Arguments ListAllRecordSets {X}.
Arguments ChangeResourceRecordSets {X}.
Arguments DeleteHostedZone {X}.
Arguments CombinedOutput {X}.
Arguments randInt {X}.

(** The process: the package variables [cleanupIds] and [runOutput], the
    framework's [World["$domain"]], and what the process has done so
    far: the calls issued, the lines printed by [fmt.Printf] and the
    failures reported through [T.Errorf]. *)
Record World (X : Type) := {
  external : X;
  domainVar : option string;
  cleanupIds : list string;
  runOutput : string;
  calls : list Call;
  printed : list string;
  failures : list string
}.

Arguments external {X}.
Arguments domainVar {X}.
Arguments cleanupIds {X}.
Arguments runOutput {X}.
Arguments calls {X}.
Arguments printed {X}.
Arguments failures {X}.

(** How a handler ends: it returns, [log.Fatalf] ends the process, or a
    run-time panic unwinds it. *)
Inductive Outcome (A : Type) :=
| Done (a : A)
| Exited (msg : string)
| Panicked (msg : string).

Arguments Done {A}.
Arguments Exited {A}.
Arguments Panicked {A}.

Definition M (X A : Type) : Type := World X → Outcome A * World X.

Definition ret {X A} (a : A) : M X A := λ w, (Done a, w).

Definition bind {X A B} (c : M X A) (k : A → M X B) : M X B :=
  λ w, match c w with
       | (Done a, w') => k a w'
       | (Exited msg, w') => (Exited msg, w')
       | (Panicked msg, w') => (Panicked msg, w')
       end.

(** Sequencing is written [x ← c; k] and [c;; k]. *)
#[global] Instance M_ret {X} : MRet (M X) := λ A, ret.
#[global] Instance M_bind {X} : MBind (M X) := λ A B k c, bind c k.

Section Harness.
Context {X : Type} (env : Env X).

(** An external call: the external state moves and the call is noted. *)
Definition call {A} (c : Call) (f : X → X * A) : M X A :=
  λ w, let '(x', a) := f (external w) in
       (Done a,
        {| external := x'; domainVar := domainVar w;
           cleanupIds := cleanupIds w; runOutput := runOutput w;
           calls := calls w ++ [c]; printed := printed w;
           failures := failures w |}).

Definition getCleanupIds : M X (list string) := λ w, (Done (cleanupIds w), w).

Definition setCleanupIds (ids : list string) : M X unit :=
  λ w, (Done tt,
        {| external := external w; domainVar := domainVar w;
           cleanupIds := ids; runOutput := runOutput w;
           calls := calls w; printed := printed w;
           failures := failures w |}).

Definition setRunOutput (out : string) : M X unit :=
  λ w, (Done tt,
        {| external := external w; domainVar := domainVar w;
           cleanupIds := cleanupIds w; runOutput := out;
           calls := calls w; printed := printed w;
           failures := failures w |}).

Definition getRunOutput : M X string := λ w, (Done (runOutput w), w).

Definition setDomainVar (d : string) : M X unit :=
  λ w, (Done tt,
        {| external := external w; domainVar := Some d;
           cleanupIds := cleanupIds w; runOutput := runOutput w;
           calls := calls w; printed := printed w;
           failures := failures w |}).

(** [fmt.Printf] *)
Definition Printf (line : string) : M X unit :=
  λ w, (Done tt,
        {| external := external w; domainVar := domainVar w;
           cleanupIds := cleanupIds w; runOutput := runOutput w;
           calls := calls w; printed := printed w ++ [line];
           failures := failures w |}).

(** [T.Errorf]: the scenario is marked failed and the handler goes on. *)
Definition Errorf (msg : string) : M X unit :=
  λ w, (Done tt,
        {| external := external w; domainVar := domainVar w;
           cleanupIds := cleanupIds w; runOutput := runOutput w;
           calls := calls w; printed := printed w;
           failures := failures w ++ [msg] |}).

(** [log.Fatalf] *)
Definition Fatalf {A} (msg : string) : M X A := λ w, (Exited msg, w).

Definition panic {A} (msg : string) : M X A := λ w, (Panicked msg, w).

(** [func fatalIfErr(err error)] *)
Definition fatalIfErr (err : option error) : M X unit :=
  match err with
  | Some e => Fatalf ("Unexpected error: " +:+ e)
  | None => ret tt
  end.

(** [for _, a := range l { body(a) }] *)
Fixpoint forEach {A} (l : list A) (body : A → M X unit) : M X unit :=
  match l with
  | [] => ret tt
  | a :: l' => body a;; forEach l' body
  end.

(** The scan of [domainId]: the handle of the first zone with the
    dot-qualified name, or the empty string. *)
Definition scanZones (zones : list HostedZone) (name : string) : string :=
  match List.find (λ zone, String.eqb (Name zone) (name +:+ ".")) zones with
  | Some zone => Id zone
  | None => EmptyString
  end.

(** [func domainId(name string) string] *)
Definition domainId (name : string) : M X string :=
  '(zones, err) ← call CallListHostedZones (ListHostedZones env);
  fatalIfErr err;;
  ret (scanZones zones name).

(** [func domainExists(name string) bool] *)
Definition domainExists (name : string) : M X bool :=
  id ← domainId name;
  ret (negb (String.eqb id EmptyString)).

(** [func uniqueReference() string]: [%0x] of a non-negative integer.
    The generator, seeded once by [seeded.Do], is part of the external
    state. *)
Definition uniqueReference : M X string :=
  λ w, let '(x', n) := randInt env (external w) in
       (Done (match n with
              | N0 => "0"
              | Npos p => HexString.Raw.of_pos p EmptyString
              end),
        {| external := x'; domainVar := domainVar w;
           cleanupIds := cleanupIds w; runOutput := runOutput w;
           calls := calls w; printed := printed w;
           failures := failures w |}).

(** The changes [cleanupDomain] collects: a [DELETE] for every record
    set that is neither [NS] nor [SOA]. *)
Definition cleanupChanges (rrsets : list ResourceRecordSet) : list Change :=
  fold_left
    (λ changes rrset,
       if negb (String.eqb (rrsetType rrset) "NS")
          && negb (String.eqb (rrsetType rrset) "SOA")
       then changes ++ [{| Action := "DELETE"; ChangeRecordSet := rrset |}]
       else changes)
    rrsets [].

Definition warnCleanup (err : option error) : M X unit :=
  match err with
  | Some e => Printf ("Warning: cleanup failed - " +:+ e +:+ strings.nl)
  | None => ret tt
  end.

(** [func cleanupDomain(r53 *route53.Route53, id string)] *)
Definition cleanupDomain (id : string) : M X unit :=
  '(rrsets, err) ← call (CallListAllRecordSets id) (ListAllRecordSets env id);
  fatalIfErr err;;
  let changes := cleanupChanges rrsets in
  (if (0 <? length changes)%nat
   then err ← call (CallChangeResourceRecordSets id changes)
                   (ChangeResourceRecordSets env id changes);
        warnCleanup err
   else ret tt);;
  err ← call (CallDeleteHostedZone id) (DeleteHostedZone env id);
  warnCleanup err.

(** [func domain(s string) string]; the type assertion on
    [World["$domain"]] panics when the key was never set. *)
Definition domain (s : string) : M X string :=
  λ w, match domainVar w with
       | Some d => (Done (strings.Replace s "$domain" d), w)
       | None => (Panicked "interface conversion: interface is nil, not string", w)
       end.

(** [Before("", ...)] *)
Definition Before : M X unit :=
  ref ← uniqueReference;
  setDomainVar (ref +:+ ".example.com").

(** [After("", ...)] *)
Definition After : M X unit :=
  ids ← getCleanupIds;
  if (0 <? length ids)%nat
  then forEach ids cleanupDomain;;
       setCleanupIds []
  else ret tt.

(** [Given(`^I have a domain "(.+?)"$`, ...)] *)
Definition Given_I_have_a_domain (name : string) : M X unit :=
  name ← domain name;
  callerReference ← uniqueReference;
  '(zone, err) ← call (CallCreateHostedZone callerReference name)
                       (CreateHostedZone env callerReference name);
  fatalIfErr err;;
  ids ← getCleanupIds;
  setCleanupIds (ids ++ [Id zone]).

(** [When(`^I run "(.+?)"$`, ...)]; [args[0]] panics on an empty
    token list. *)
Definition When_I_run (cmd : string) : M X unit :=
  cmd ← domain cmd;
  match safeSplit cmd with
  | [] => panic "runtime error: index out of range"
  | arg0 :: args =>
      '(out, err) ← call (CallCommand ("./" +:+ arg0) args)
                          (CombinedOutput env ("./" +:+ arg0) args);
      match err with
      | Some e => Errorf ("Error: " +:+ e +:+ " Output: " +:+ out)
      | None => setRunOutput out
      end
  end.

(** [Then(`^the domain "(.+?)" is created$`, ...)] *)
Definition Then_the_domain_is_created (name : string) : M X unit :=
  name ← domain name;
  id ← domainId name;
  if String.eqb id EmptyString
  then Errorf ("Domain " +:+ name +:+ " was not created")
  else ids ← getCleanupIds;
       setCleanupIds (ids ++ [id]).

(** [Then(`^the domain "(.+?)" is deleted$`, ...)] *)
Definition Then_the_domain_is_deleted (name : string) : M X unit :=
  name ← domain name;
  id ← domainId name;
  if String.eqb id EmptyString
  then setCleanupIds []
  else Errorf ("Domain " +:+ name +:+ " was not deleted");;
       ids ← getCleanupIds;
       setCleanupIds (ids ++ [id]).

(** [Then(`^the output contains "(.+?)"$`, ...)] *)
Definition Then_the_output_contains (s : string) : M X unit :=
  s ← domain s;
  out ← getRunOutput;
  if negb (strings.Contains out s)
  then Errorf ("Output did not contain " +:+ strings.dquote +:+ s +:+ strings.dquote)
  else ret tt.

End Harness.

(** *** Reading the record of a run *)

(** The handles a zone deletion was attempted for, in order. *)
Definition deleteCalls (cs : list Call) : list string :=
  omap (λ c, match c with CallDeleteHostedZone id => Some id | _ => None end) cs.

(** The line [cleanupDomain] prints for the error of a deletion call. *)
Definition warningOf (err : option error) : list string :=
  match err with
  | Some e => ["Warning: cleanup failed - " +:+ e +:+ strings.nl]
  | None => []
  end.

(** *** Two providers to run the harness against *)

(** A provider whose listings succeed and whose deletions fail: every
    batch change is throttled, and the zone [Z1] cannot be deleted.  The
    external state counts the calls received. *)
Definition rrset (name type : string) : ResourceRecordSet :=
  {| rrsetName := name; rrsetType := type; rrsetRecords := [] |}.

Definition flakyEnv : Env nat := {|
  ListHostedZones := λ x, (S x, ([], None));
  CreateHostedZone := λ _ name x,
    (S x, ({| Name := name +:+ "."; Id := "Z0" |}, None));
  ListAllRecordSets := λ id x,
    (S x, ([rrset "example.com." "NS"; rrset "example.com." "SOA";
            rrset "a.example.com." "A"], None));
  ChangeResourceRecordSets := λ _ _ x, (S x, Some "Throttling");
  DeleteHostedZone := λ id x,
    (S x, if String.eqb id "Z1" then Some "HostedZoneNotEmpty" else None);
  CombinedOutput := λ _ _ x, (S x, ("boom", Some "exit status 1"));
  randInt := λ x, (x, 0%N)
|}.

(** An in-memory provider: the zones that exist and a counter for fresh
    handles.  The binary under test understands [delete NAME]. *)
Record Mem := {
  zones : list HostedZone;
  nextId : N
}.

Definition memHas (id : string) (x : Mem) : bool :=
  existsb (λ z, String.eqb (Id z) id) (zones x).

Definition memDeleteId (id : string) (x : Mem) : Mem :=
  {| zones := List.filter (λ z, negb (String.eqb (Id z) id)) (zones x);
     nextId := nextId x |}.

Definition memDeleteName (name : string) (x : Mem) : Mem :=
  {| zones := List.filter (λ z, negb (String.eqb (Name z) (name +:+ "."))) (zones x);
     nextId := nextId x |}.

Definition memEnv : Env Mem := {|
  ListHostedZones := λ x, (x, (zones x, None));
  CreateHostedZone := λ _ name x,
    let zone := {| Name := name +:+ ".";
                   Id := "/hostedzone/Z" +:+ HexString.of_N (nextId x) |} in
    ({| zones := zones x ++ [zone]; nextId := N.succ (nextId x) |}, (zone, None));
  ListAllRecordSets := λ id x,
    if memHas id x
    then (x, ([rrset "zone" "NS"; rrset "zone" "SOA"], None))
    else (x, ([], Some "NoSuchHostedZone"));
  ChangeResourceRecordSets := λ _ _ x, (x, None);
  DeleteHostedZone := λ id x,
    if memHas id x then (memDeleteId id x, None)
    else (x, Some "NoSuchHostedZone");
  CombinedOutput := λ path args x,
    match args with
    | ["delete"; name] => (memDeleteName name x, ("Deleted", None))
    | _ => (x, ("usage", Some "exit status 1"))
    end;
  randInt := λ x, (x, 51966%N)
|}.

Definition world0 {X} (x : X) : World X := {|
  external := x; domainVar := None; cleanupIds := []; runOutput := EmptyString;
  calls := []; printed := []; failures := []
|}.

(** Run a handler for its final world. *)
Definition exec {X A} (c : M X A) (w : World X) : World X := (c w).2.

(** A scenario against the in-memory provider: two domains are created,
    the binary deletes the first. *)
Definition two_domains_one_deleted : M Mem unit :=
  Before memEnv;;
  Given_I_have_a_domain memEnv "$domain";;
  Given_I_have_a_domain memEnv "other.$domain";;
  When_I_run memEnv "cli53 delete $domain".

(** A world of the failing provider with two handles pending and an
    earlier output. *)
Definition flakyWorld : World nat := {|
  external := 0; domainVar := Some "cafe.example.com";
  cleanupIds := ["Z1"; "Z2"]; runOutput := "earlier output";
  calls := []; printed := []; failures := []
|}.

(** The block of an open span has a space in it. *)
Definition block_inv (st : splitState) : Prop :=
  inquote st ≠ EmptyString → strings.Contains (block st) " " = true.

(** [%0x] of a non-negative integer, as [uniqueReference] formats its
    draw. *)
Definition hexRef (n : N) : string :=
  match n with
  | N0 => "0"
  | Npos p => HexString.Raw.of_pos p EmptyString
  end.

(** ** The steps that read records and exports *)

(** [%d] of a count. *)
Definition decimal (n : nat) : string :=
  DecimalString.NilEmpty.string_of_uint (Nat.to_uint n).

Section RecordSteps.
Context {X : Type} (env : Env X).

(** [cli53.ConvertRRSetToBind(rrset)] and [rr.String()] of each record it
    returns: the zone-file lines of a record set.  The conversion is
    code of the package under test. *)
Context (bindLines : ResourceRecordSet → list string).

(** [func hasRecord(name, record string) bool]: the two loops return at
    the first line that, with tabs made spaces, equals [record]. *)
Definition hasRecord (name record : string) : M X bool :=
  id ← domainId env name;
  '(rrsets, err) ← call (CallListAllRecordSets id) (ListAllRecordSets env id);
  fatalIfErr err;;
  ret (existsb
         (λ rrset,
            existsb (λ line, String.eqb record (strings.Replace line strings.tab " "))
                    (bindLines rrset))
         rrsets).

(** [Then(`^the domain "(.+?)" has (\d+) records$`, ...)] *)
Definition Then_the_domain_has_records (name : string) (expected : nat) : M X unit :=
  name ← domain name;
  id ← domainId env name;
  '(rrsets, err) ← call (CallListAllRecordSets id) (ListAllRecordSets env id);
  fatalIfErr err;;
  let actual := length rrsets in
  if negb (expected =? actual)%nat
  then Errorf ("Domain " +:+ name +:+ ": Expected " +:+ decimal expected
               +:+ " records, actually " +:+ decimal actual +:+ " records ")
  else ret tt.

(** [Then(`^the domain "(.+?)" has record "(.+)"$`, ...)] *)
Definition Then_the_domain_has_record (name record : string) : M X unit :=
  name ← domain name;
  record ← domain record;
  found ← hasRecord name record;
  if negb found
  then Errorf ("Domain " +:+ name +:+ ": missing record " +:+ record)
  else ret tt.

(** [Then(`^the domain "(.+?)" doesn't have record "(.+)"$`, ...)] *)
Definition Then_the_domain_doesnt_have_record (name record : string) : M X unit :=
  name ← domain name;
  record ← domain record;
  found ← hasRecord name record;
  if (found : bool)
  then Errorf ("Domain " +:+ name +:+ ": present record " +:+ record)
  else ret tt.

(** Reading the reference file: [os.Open] and [ioutil.ReadAll] move the
    external state and are not provider calls. *)
Context (osOpen : string → X → X * option error).
Context (ReadAll : string → X → X * (string * option error)).

(** [fmt.Sprintf(format)] with no operand, as [T.Errorf(errors)] applies
    it to the report. *)
Context (Sprintf0 : string → string).

Definition local {A} (f : X → X * A) : M X A :=
  λ w, let '(x', a) := f (external w) in
       (Done a,
        {| external := x'; domainVar := domainVar w;
           cleanupIds := cleanupIds w; runOutput := runOutput w;
           calls := calls w; printed := printed w;
           failures := failures w |}).

(** [Then(`^the domain "(.+?)" export matches file "(.+?)"( including auth)?$`, ...)],
    with the orders in which the two [range] loops of [compareDomains]
    visit their maps. *)
Definition Then_the_domain_export_matches_file
    (order1 order2 : gmap string bool → list string)
    (name filename auth : string) : M X unit :=
  name ← domain name;
  '(actual, err) ← call (CallCommand "./cli53" ["export"; name])
                        (CombinedOutput env "./cli53" ["export"; name]);
  match err with
  | Some e => Errorf ("Error: " +:+ e +:+ " Output: " +:+ actual)
  | None =>
      err ← local (osOpen filename);
      fatalIfErr err;;
      '(expected, err) ← local (ReadAll filename);
      fatalIfErr err;;
      let includeAuth := negb (String.eqb auth EmptyString) in
      let errors :=
        compareDomains_in (order1 (prepareZoneFile expected includeAuth)) order2
          expected actual includeAuth in
      if (0 <? String.length errors)%nat
      then Errorf (Sprintf0 errors)
      else ret tt
  end.

End RecordSteps.

(** Some line of some record set, with tabs made spaces, is [record]:
    the value the two loops of [hasRecord] compute. *)
Definition recordListed (bindLines : ResourceRecordSet → list string)
    (rrsets : list ResourceRecordSet) (record : string) : bool :=
  existsb
    (λ rrset,
       existsb (λ line, String.eqb record (strings.Replace line strings.tab " "))
               (bindLines rrset))
    rrsets.

(** The world after one zone listing. *)
Definition listed {X} (w : World X) (x1 : X) : World X :=
  {| external := x1; domainVar := domainVar w;
     cleanupIds := cleanupIds w; runOutput := runOutput w;
     calls := calls w ++ [CallListHostedZones];
     printed := printed w; failures := failures w |}.

(** The world after a zone listing and a record listing. *)
Definition listedRecords {X} (w : World X) (x2 : X) (id : string) : World X :=
  {| external := x2; domainVar := domainVar w;
     cleanupIds := cleanupIds w; runOutput := runOutput w;
     calls := calls w ++ [CallListHostedZones; CallListAllRecordSets id];
     printed := printed w; failures := failures w |}.

(** *** More providers and worlds to run the harness against *)

(** A provider that refuses every call. *)
Definition deniedEnv : Env nat := {|
  ListHostedZones := λ x, (S x, ([], Some "AccessDenied"));
  CreateHostedZone := λ _ name x,
    (S x, ({| Name := name +:+ "."; Id := "" |}, Some "AccessDenied"));
  ListAllRecordSets := λ id x, (S x, ([], Some "AccessDenied"));
  ChangeResourceRecordSets := λ _ _ x, (S x, Some "AccessDenied");
  DeleteHostedZone := λ id x, (S x, Some "AccessDenied");
  CombinedOutput := λ _ _ x, (S x, ("", Some "exit status 1"));
  randInt := λ x, (x, 10%N)
|}.

(** A provider where the zone [Z1] cannot be deleted and the record
    sets of the zone [Z2] cannot be listed. *)
Definition brokenListingEnv : Env nat := {|
  ListHostedZones := λ x, (S x, ([], None));
  CreateHostedZone := λ _ name x,
    (S x, ({| Name := name +:+ "."; Id := "Z0" |}, None));
  ListAllRecordSets := λ id x,
    if String.eqb id "Z2" then (S x, ([], Some "Throttling"))
    else (S x, ([rrset "example.com." "NS"; rrset "example.com." "SOA"], None));
  ChangeResourceRecordSets := λ _ _ x, (S x, None);
  DeleteHostedZone := λ id x,
    (S x, if String.eqb id "Z1" then Some "HostedZoneNotEmpty" else None);
  CombinedOutput := λ _ _ x, (S x, ("", None));
  randInt := λ x, (x, 0%N)
|}.

(** Three handles pending. *)
Definition threePending : World nat := {|
  external := 0; domainVar := Some "cafe.example.com";
  cleanupIds := ["Z1"; "Z2"; "Z3"]; runOutput := EmptyString;
  calls := []; printed := []; failures := []
|}.

(** A binary whose every command prints one A record with tabs, beside
    a reference file that holds the record with spaces. *)
Definition exportEnv : Env unit := {|
  ListHostedZones := λ x, (x, ([], None));
  CreateHostedZone := λ _ name x, (x, ({| Name := name +:+ "."; Id := "Z0" |}, None));
  ListAllRecordSets := λ id x, (x, ([], None));
  ChangeResourceRecordSets := λ _ _ x, (x, None);
  DeleteHostedZone := λ id x, (x, None);
  CombinedOutput := λ _ _ x, (x, (a_record_tabs, None));
  randInt := λ x, (x, 10%N)
|}.

Definition exportOpen (filename : string) (x : unit) : unit * option error :=
  (x, None).

Definition exportRead (filename : string) (x : unit) : unit * (string * option error) :=
  (x, (a_record_spaces, None)).

Definition exportWorld : World unit := {|
  external := tt; domainVar := Some "cafe.example.com";
  cleanupIds := []; runOutput := EmptyString;
  calls := []; printed := []; failures := []
|}.

(** The zone-file lines of a record set, for the runs: its name and its
    type with a tab between. *)
Definition nameTabType (rrset : ResourceRecordSet) : list string :=
  [rrsetName rrset +:+ strings.tab +:+ rrsetType rrset].

(** The in-memory provider after [Before] and one [Given]. *)
Definition oneDomain : World Mem :=
  exec (Before memEnv;; Given_I_have_a_domain memEnv "$domain")
       (world0 {| zones := []; nextId := 0 |}).

(** *** Reading the record of a run, continued *)

(** The handle a provider call is about. *)
Definition callHandle (c : Call) : option string :=
  match c with
  | CallListAllRecordSets id => Some id
  | CallChangeResourceRecordSets id _ => Some id
  | CallDeleteHostedZone id => Some id
  | _ => None
  end.

(** A change that deletes a record set that is neither NS nor SOA. *)
Definition deletesPlainRecord (c : Change) : Prop :=
  Action c = "DELETE"
  ∧ rrsetType (ChangeRecordSet c) ≠ "NS"
  ∧ rrsetType (ChangeRecordSet c) ≠ "SOA".

(** A call the teardown may issue for the handle [id]. *)
Definition cleanupCallFor (id : string) (c : Call) : Prop :=
  match c with
  | CallListAllRecordSets id' => id' = id
  | CallChangeResourceRecordSets id' changes =>
      id' = id ∧ changes ≠ [] ∧ Forall deletesPlainRecord changes
  | CallDeleteHostedZone id' => id' = id
  | _ => False
  end.

(** The record sets [cleanupDomain] asks to delete. *)
Definition plainRecord (rrset : ResourceRecordSet) : bool :=
  negb (String.eqb (rrsetType rrset) "NS")
  && negb (String.eqb (rrsetType rrset) "SOA").

(** The bytes of a string. *)
Fixpoint bytes (s : string) : list ascii :=
  match s with
  | EmptyString => []
  | String c s' => c :: bytes s'
  end.

(** * Properties *)

#[local] Set Warnings "-clear-no-such-hyp".

(** Unfold the sequencing of a handler down to functions on worlds. *)
Ltac unfold_M :=
  unfold mbind, mret, M_bind, M_ret, bind, ret, call, fatalIfErr, Fatalf,
    warnCleanup, Printf, Errorf, getCleanupIds, setCleanupIds, setRunOutput,
    panic, domain in *.

(** ** Strings *)

Module strings_facts.
Import strings.

Lemma app_cons c s t : String c s +:+ t = String c (s +:+ t).
Proof. reflexivity. Qed.

Lemma app_nil_l s : EmptyString +:+ s = s.
Proof. reflexivity. Qed.

Lemma app_nil_r s : s +:+ EmptyString = s.
Proof. induction s as [|c s IH]; [done|]. by rewrite app_cons, IH. Qed.

Lemma app_assoc s t u : (s +:+ t) +:+ u = s +:+ (t +:+ u).
Proof. induction s as [|c s IH]; [done|]. by rewrite !app_cons, IH. Qed.

Lemma length_app s t :
  String.length (s +:+ t) = (String.length s + String.length t)%nat.
Proof. induction s as [|c s IH]; [done|]. rewrite app_cons. simpl. by rewrite IH. Qed.

Lemma drop_app s t : drop (String.length s) (s +:+ t) = t.
Proof. induction s as [|c s IH]; [done|]. by rewrite app_cons. Qed.

Lemma take_app s t : take (String.length s) (s +:+ t) = s.
Proof. induction s as [|c s IH]; [done|]. rewrite app_cons. simpl. by rewrite IH. Qed.

Lemma prefix_nil s : String.prefix EmptyString s = true.
Proof. by destruct s. Qed.

Lemma prefix_app p s : String.prefix p (p +:+ s) = true.
Proof.
  induction p as [|c p IH]; [apply prefix_nil|].
  rewrite app_cons. simpl. by destruct (ascii_dec c c).
Qed.

Lemma HasPrefix_app p s : HasPrefix (p +:+ s) p = true.
Proof. apply prefix_app. Qed.

Lemma TrimPrefix_app p s : TrimPrefix (p +:+ s) p = s.
Proof. unfold TrimPrefix. by rewrite HasPrefix_app, drop_app. Qed.

Lemma HasSuffix_app s suffix : HasSuffix (s +:+ suffix) suffix = true.
Proof.
  unfold HasSuffix. rewrite length_app.
  replace (String.length s + String.length suffix - String.length suffix)%nat
    with (String.length s) by lia.
  rewrite drop_app, String.eqb_refl, andb_true_r.
  apply Nat.leb_le. lia.
Qed.

Lemma TrimSuffix_app s suffix : TrimSuffix (s +:+ suffix) suffix = s.
Proof.
  unfold TrimSuffix. rewrite HasSuffix_app, length_app.
  replace (String.length s + String.length suffix - String.length suffix)%nat
    with (String.length s) by lia.
  apply take_app.
Qed.

Lemma prefix_cons a p c s :
  String.prefix (String a p) (String c s) =
  if ascii_dec a c then String.prefix p s else false.
Proof. reflexivity. Qed.

Lemma Contains_cons c w sub :
  Contains (String c w) sub = String.prefix sub (String c w) || Contains w sub.
Proof. reflexivity. Qed.

Lemma Contains_cons_space c w :
  Contains (String c w) " " = Ascii.eqb c " " || Contains w " ".
Proof.
  rewrite Contains_cons. change " " with (String " "%char EmptyString) at 1.
  rewrite prefix_cons, prefix_nil.
  destruct (ascii_dec " " c) as [<-|Hne]; [done|].
  destruct (Ascii.eqb_spec c " ") as [->|]; done.
Qed.

Lemma Split_cons c s sep :
  Split (String c s) sep =
  if Ascii.eqb c sep then EmptyString :: Split s sep
  else match Split s sep with
       | f :: fs => String c f :: fs
       | [] => [String c EmptyString]
       end.
Proof. reflexivity. Qed.

Lemma Split_nonempty s sep : Split s sep ≠ [].
Proof.
  destruct s as [|c s]; [done|]. rewrite Split_cons.
  destruct (Ascii.eqb c sep); [done|]. by destruct (Split s sep).
Qed.

Lemma Split_word w : Contains w " " = false → Split w " " = [w].
Proof.
  induction w as [|c w IH]; [done|].
  rewrite Contains_cons_space. intros [Hc Hw]%orb_false_iff.
  rewrite Split_cons, Hc, IH; done.
Qed.

Lemma Split_word_app w rest :
  Contains w " " = false →
  Split (w +:+ " " +:+ rest) " " = w :: Split rest " ".
Proof.
  induction w as [|c w IH]; [done|].
  rewrite Contains_cons_space. intros [Hc Hw]%orb_false_iff.
  rewrite app_cons, Split_cons, Hc, IH; done.
Qed.

Lemma Join_cons x y rest sep :
  Join (x :: y :: rest) sep = x +:+ sep +:+ Join (y :: rest) sep.
Proof. reflexivity. Qed.

Lemma Split_Join fs :
  fs ≠ [] → Forall (λ w, Contains w " " = false) fs →
  Split (Join fs " ") " " = fs.
Proof.
  intros Hne Hfs. induction Hfs as [|w fs Hw Hfs IH]; [done|].
  destruct fs as [|y fs].
  - by apply Split_word.
  - rewrite Join_cons, Split_word_app by done. f_equal. by apply IH.
Qed.

(** The functions on the inputs the harness gives them. *)
Example Split_empty : Split EmptyString " " = [EmptyString].
Proof. reflexivity. Qed.

Example Split_two_spaces : Split "a  b " " " = ["a"; ""; "b"; ""].
Proof. reflexivity. Qed.

Example Replace_domain :
  Replace "delete $domain and www.$domain" "$domain" "cafe.example.com"
  = "delete cafe.example.com and www.cafe.example.com".
Proof. reflexivity. Qed.

Example Replace_tabs : Replace ("a" +:+ tab +:+ tab +:+ "b") tab " " = "a  b".
Proof. reflexivity. Qed.

Example HasSuffix_quote : HasSuffix "b'" "'" = true ∧ HasSuffix "" "'" = false.
Proof. split; reflexivity. Qed.

Example TrimSuffix_quote : TrimSuffix "b'" "'" = "b" ∧ TrimSuffix "'" "'" = "".
Proof. split; reflexivity. Qed.

End strings_facts.

(** ** Argument tokenizer *)

Section tokenizer.
Import strings strings_facts.

Lemma quoteStr_nonempty q : String.eqb (quoteStr q) EmptyString = false.
Proof. by destruct q. Qed.

Lemma firstByte_quote q f : firstByte (quoteStr q +:+ f) = quoteStr q.
Proof. by destruct q. Qed.

Lemma HasPrefix_quote q f :
  HasPrefix (quoteStr q +:+ f) squote || HasPrefix (quoteStr q +:+ f) dquote = true.
Proof.
  destruct q; simpl quoteStr.
  - by rewrite HasPrefix_app.
  - by rewrite (HasPrefix_app dquote), orb_true_r.
Qed.

Lemma nospace_quote q f : nospace f = true → nospace (quoteStr q +:+ f) = true.
Proof.
  unfold nospace. intros Hf.
  destruct q; simpl quoteStr; unfold squote, dquote;
    by rewrite app_cons, Contains_cons_space, app_nil_l.
Qed.

Lemma nospace_app_quote q f : nospace f = true → nospace (f +:+ quoteStr q) = true.
Proof.
  unfold nospace. induction f as [|c f IH].
  - intros _. by destruct q.
  - rewrite app_cons, !Contains_cons_space, !negb_orb.
    intros [-> ?]%andb_true_iff. by apply IH.
Qed.

(** A fragment that starts with a quote, met outside a span, opens a
    span and emits nothing, whatever the fragment ends with. *)
Lemma step_open st q f :
  inquote st = EmptyString →
  safeSplit_step st (quoteStr q +:+ f)
  = SplitState (result st) (quoteStr q) (f +:+ " ").
Proof.
  intros Hout. unfold safeSplit_step.
  by rewrite Hout, HasPrefix_quote, firstByte_quote, TrimPrefix_app.
Qed.

Lemma step_word st w :
  inquote st = EmptyString →
  HasPrefix w squote = false → HasPrefix w dquote = false →
  safeSplit_step st w = SplitState (result st ++ [w]) EmptyString (block st).
Proof.
  intros Hout Hs Hd. unfold safeSplit_step. by rewrite Hout, Hs, Hd.
Qed.

Lemma step_inside res q b m :
  HasSuffix m (quoteStr q) = false →
  safeSplit_step (SplitState res (quoteStr q) b) m
  = SplitState res (quoteStr q) (b +:+ m +:+ " ").
Proof.
  intros Hm. unfold safeSplit_step. simpl inquote.
  by rewrite quoteStr_nonempty, Hm.
Qed.

Lemma step_close res q b last :
  safeSplit_step (SplitState res (quoteStr q) b) (last +:+ quoteStr q)
  = SplitState (res ++ [b +:+ last]) EmptyString EmptyString.
Proof.
  unfold safeSplit_step. simpl inquote.
  by rewrite quoteStr_nonempty, HasSuffix_app, TrimSuffix_app.
Qed.

(** Inside a span, fragments that do not end with the quote only grow
    the block. *)
Lemma loop_inside res q b ms :
  Forall (λ m, HasSuffix m (quoteStr q) = false) ms →
  safeSplit_loop (SplitState res (quoteStr q) b) ms
  = SplitState res (quoteStr q) (b +:+ spaced ms).
Proof.
  intros Hms. revert b. induction Hms as [|m ms Hm _ IH]; intros b.
  - simpl. by rewrite app_nil_r.
  - unfold safeSplit_loop in *. simpl fold_left.
    rewrite step_inside, IH by done. simpl spaced.
    by rewrite !app_assoc.
Qed.

Lemma Join_spaced first middle last :
  Join (first :: middle ++ [last]) " " = (first +:+ " ") +:+ spaced middle +:+ last.
Proof.
  revert first. induction middle as [|m ms IH]; intros first.
  - simpl. by rewrite app_assoc.
  - change ((m :: ms) ++ [last]) with (m :: ms ++ [last]).
    rewrite Join_cons, IH. simpl spaced. by rewrite !app_assoc.
Qed.

(** One well-formed item, met outside a span, adds its token and
    leaves the loop outside a span. *)
Lemma loop_item st it rest :
  inquote st = EmptyString → well_formed it = true →
  ∃ b, safeSplit_loop st (fragments it ++ rest)
       = safeSplit_loop (SplitState (result st ++ [token it]) EmptyString b) rest.
Proof.
  intros Hout Hwf. destruct it as [w|q first middle last]; simpl in Hwf.
  - apply andb_true_iff in Hwf as [[_ Hs]%andb_true_iff Hd].
    apply negb_true_iff in Hs, Hd.
    exists (block st). unfold safeSplit_loop. simpl.
    by rewrite step_word.
  - apply andb_true_iff in Hwf as [[_ Hmid]%andb_true_iff _].
    exists EmptyString. unfold safeSplit_loop.
    change (token (Quoted q first middle last))
      with (Join (first :: middle ++ [last]) " ").
    rewrite Join_spaced.
    simpl fragments. rewrite <- app_comm_cons. simpl fold_left.
    rewrite step_open by done.
    rewrite <- List.app_assoc, fold_left_app.
    fold (safeSplit_loop (SplitState (result st) (quoteStr q) (first +:+ " ")) middle).
    rewrite loop_inside.
    + simpl fold_left. rewrite step_close.
      by rewrite !app_assoc.
    + apply Forall_forall. intros m Hm.
      rewrite forallb_forall in Hmid.
      apply list_elem_of_In, Hmid in Hm.
      apply andb_true_iff in Hm as [_ Hm]. by apply negb_true_iff.
Qed.

Lemma loop_items st items rest :
  inquote st = EmptyString → forallb well_formed items = true →
  ∃ b, safeSplit_loop st (concat (map fragments items) ++ rest)
       = safeSplit_loop
           (SplitState (result st ++ map token items) EmptyString b) rest.
Proof.
  revert st. induction items as [|it items IH]; intros st Hout Hwf.
  - exists (block st). simpl. rewrite List.app_nil_r.
    destruct st; simpl in *; by subst.
  - simpl in Hwf. apply andb_true_iff in Hwf as [Hit Hitems].
    simpl concat. rewrite <- List.app_assoc.
    destruct (loop_item st it (concat (map fragments items) ++ rest))
      as [b ->]; [done..|].
    destruct (IH (SplitState (result st ++ [token it]) EmptyString b))
      as [b' ->]; [done..|].
    exists b'. simpl result. by rewrite <- List.app_assoc.
Qed.

Lemma nospace_fragments it :
  well_formed it = true →
  Forall (λ w, Contains w " " = false) (fragments it).
Proof.
  destruct it as [w|q first middle last]; simpl; intros Hwf.
  - apply andb_true_iff in Hwf as [[Hw _]%andb_true_iff _].
    constructor; [|done]. by apply negb_true_iff.
  - apply andb_true_iff in Hwf as [[Hf Hmid]%andb_true_iff Hl].
    constructor.
    { apply negb_true_iff. by apply nospace_quote. }
    apply Forall_app. split.
    + apply Forall_forall. intros m Hm.
      rewrite forallb_forall in Hmid.
      apply list_elem_of_In, Hmid in Hm.
      apply andb_true_iff in Hm as [Hm _]. by apply negb_true_iff.
    + constructor; [|done]. apply negb_true_iff. by apply nospace_app_quote.
Qed.

Lemma nospace_items items :
  forallb well_formed items = true →
  Forall (λ w, Contains w " " = false) (concat (map fragments items)).
Proof.
  induction items as [|it items IH]; simpl; [done|].
  intros [Hit Hitems]%andb_true_iff.
  apply Forall_app. split; [by apply nospace_fragments | by apply IH].
Qed.

(** Well-formed items followed by a span that is opened and never
    closed: the loop ends inside the span, holding the rest of the
    input in [block]; only the tokens of the items were emitted. *)
Lemma loop_open_span items q first rest :
  forallb well_formed items = true →
  nospace first = true →
  Forall (λ m, nospace m = true ∧ HasSuffix m (quoteStr q) = false) rest →
  safeSplit_loop init
    (Split (Join (concat (map fragments items)
                    ++ (quoteStr q +:+ first) :: rest) " ") " ")
  = SplitState (map token items) (quoteStr q) ((first +:+ " ") +:+ spaced rest).
Proof.
  intros Hwf Hfirst Hrest. rewrite Split_Join.
  - destruct (loop_items init items ((quoteStr q +:+ first) :: rest))
      as [b ->]; [done..|].
    unfold safeSplit_loop at 1. simpl fold_left.
    rewrite step_open by done. simpl result.
    fold (safeSplit_loop
            (SplitState (map token items) (quoteStr q) (first +:+ " ")) rest).
    rewrite loop_inside; [done|].
    eapply Forall_impl; [exact Hrest|]. by intros m [_ ?].
  - by destruct (concat (map fragments items)).
  - apply Forall_app. split; [by apply nospace_items|].
    constructor.
    + apply negb_true_iff. by apply nospace_quote.
    + eapply Forall_impl; [exact Hrest|]. intros m [Hm _].
      by apply negb_true_iff.
Qed.

Lemma fragments_nonempty items :
  items ≠ [] → concat (map fragments items) ≠ [].
Proof. destruct items as [|[w|q f m l] items]; done. Qed.

Lemma safeSplit_items items :
  items ≠ [] → forallb well_formed items = true →
  safeSplit (render items) = map token items.
Proof.
  intros Hne Hwf. unfold safeSplit, render.
  rewrite Split_Join by auto using fragments_nonempty, nospace_items.
  destruct (loop_items init items []) as [b Hb]; [done..|].
  rewrite List.app_nil_r in Hb. by rewrite Hb.
Qed.

(** *** What a token can look like *)

Lemma Contains_nil_space : Contains EmptyString " " = false.
Proof. reflexivity. Qed.

Lemma Contains_space_app a b :
  Contains (a +:+ b) " " = Contains a " " || Contains b " ".
Proof.
  induction a as [|c a IH]; [done|].
  by rewrite app_cons, !Contains_cons_space, IH, orb_assoc.
Qed.

Lemma token_inv_step st i : token_inv st → token_inv (safeSplit_step st i).
Proof.
  intros [Hres Hblock]. unfold safeSplit_step.
  destruct (String.eqb_spec (inquote st) EmptyString) as [Hq|Hq].
  - destruct (HasPrefix i squote) eqn:Hs; simpl orb.
    { split; [done|]. intros _. simpl block.
      by rewrite Contains_space_app, orb_true_r. }
    destruct (HasPrefix i dquote) eqn:Hd.
    { split; [done|]. intros _. simpl block.
      by rewrite Contains_space_app, orb_true_r. }
    split; simpl; [|done].
    apply Forall_app. split; [done|]. constructor; [|done]. by right.
  - specialize (Hblock Hq).
    destruct (HasSuffix i (inquote st)); simpl negb; cbv iota.
    + split; simpl; [|done].
      apply Forall_app. split; [done|]. constructor; [|done]. left.
      by rewrite Contains_space_app, Hblock.
    + split; simpl; [done|]. intros _.
      by rewrite Contains_space_app, Hblock.
Qed.

Lemma token_inv_loop fs st : token_inv st → token_inv (safeSplit_loop st fs).
Proof.
  revert st. induction fs as [|f fs IH]; intros st Hst; [done|].
  apply IH. by apply token_inv_step.
Qed.

Lemma safeSplit_tokens s : Forall spaced_or_plain (safeSplit s).
Proof.
  apply (token_inv_loop (Split s " ") init). split; [constructor | done].
Qed.

Example safeSplit_empty : safeSplit EmptyString = [EmptyString].
Proof. reflexivity. Qed.

Example safeSplit_double_quotes :
  safeSplit ("rrcreate $d TXT " +:+ dquote +:+ "hello  world" +:+ dquote)
  = ["rrcreate"; "$d"; "TXT"; "hello  world"].
Proof. reflexivity. Qed.

Example safeSplit_two_spaces : safeSplit "a  b" = ["a"; ""; "b"].
Proof. reflexivity. Qed.

(** C3. A well-formed command line is split at the single spaces
    outside quotes, a quoted span comes out as one token with its
    spaces kept and its two quote characters removed; the command line
    [run 'a b' c] gives the three tokens [run], [a b], [c]. *)
Theorem safeSplit_well_formed :
  (∀ items, items ≠ [] → forallb well_formed items = true →
            safeSplit (render items) = map token items)
  ∧ safeSplit "run 'a b' c" = ["run"; "a b"; "c"].
Proof. split; [exact safeSplit_items | reflexivity]. Qed.

Lemma safeSplit_well_formed_witness :
  safeSplit (render [Word "run"; Quoted SingleQuote "a" [] "b"; Word "c";
                     Quoted DoubleQuote "x" ["y'"; ""] "z"])
  = ["run"; "a b"; "c"; "x y'  z"].
Proof.
  apply (proj1 safeSplit_well_formed
           [Word "run"; Quoted SingleQuote "a" [] "b"; Word "c";
            Quoted DoubleQuote "x" ["y'"; ""] "z"]).
  - discriminate.
  - reflexivity.
Defined.

(** C2, as the code has it. A span that is opened and never closed
    raises no error and is consumed into [block], which is never
    emitted: the loop ends inside the span and the result holds the
    tokens that precede it and nothing else. *)
Theorem safeSplit_unterminated_dropped items q first rest :
  forallb well_formed items = true →
  nospace first = true →
  Forall (λ m, nospace m = true ∧ HasSuffix m (quoteStr q) = false) rest →
  let s := Join (concat (map fragments items)
                   ++ (quoteStr q +:+ first) :: rest) " " in
  safeSplit_loop init (Split s " ")
  = SplitState (map token items) (quoteStr q) ((first +:+ " ") +:+ spaced rest)
  ∧ safeSplit s = map token items.
Proof.
  intros Hwf Hfirst Hrest s.
  pose proof (loop_open_span items q first rest Hwf Hfirst Hrest) as Hloop.
  fold s in Hloop. split; [done|]. unfold safeSplit. by rewrite Hloop.
Qed.

Lemma safeSplit_unterminated_dropped_witness :
  safeSplit_loop init (Split "run 'a b c" " ")
  = SplitState ["run"] "'" "a b c "
  ∧ safeSplit "run 'a b c" = ["run"].
Proof.
  apply (safeSplit_unterminated_dropped [Word "run"] SingleQuote "a" ["b"; "c"]).
  - reflexivity.
  - reflexivity.
  - repeat constructor.
Defined.

(** C2, as stated, fails: on [run 'a b] the remainder is not emitted;
    the only token is [run]. *)
Lemma safeSplit_unterminated_not_emitted :
  safeSplit "run 'a b" = ["run"]
  ∧ ¬ ∃ tokens final,
        safeSplit "run 'a b" = tokens ++ [final]
        ∧ Contains final "a b" = true.
Proof.
  split; [reflexivity|].
  intros (tokens & final & Heq & Hfinal).
  change (safeSplit "run 'a b") with ([] ++ ["run"]) in Heq.
  apply app_inj_tail in Heq as [_ <-]. discriminate.
Qed.

(** C9. A fragment that begins and ends with the same quote character,
    met outside a span, opens a span and emits nothing; when no later
    fragment ends with that quote the whole input is dropped; such a
    fragment is never a token of any result; the input ['a' b] gives no
    token. *)
Theorem safeSplit_quoted_word_opens_span :
  (∀ st q w,
      inquote st = EmptyString →
      safeSplit_step st (quoteStr q +:+ w +:+ quoteStr q)
      = SplitState (result st) (quoteStr q) ((w +:+ quoteStr q) +:+ " "))
  ∧ (∀ q w rest,
      nospace w = true →
      Forall (λ m, nospace m = true ∧ HasSuffix m (quoteStr q) = false) rest →
      safeSplit (Join ((quoteStr q +:+ w +:+ quoteStr q) :: rest) " ") = [])
  ∧ (∀ s q w,
      nospace w = true →
      quoteStr q +:+ w +:+ quoteStr q ∉ safeSplit s)
  ∧ safeSplit "'a' b" = [].
Proof.
  split; [|split; [|split]].
  - intros st q w Hout. by apply step_open.
  - intros q w rest Hw Hrest.
    unfold safeSplit.
    change (Join ((quoteStr q +:+ w +:+ quoteStr q) :: rest) " ")
      with (Join (concat (map fragments [])
                    ++ (quoteStr q +:+ w +:+ quoteStr q) :: rest) " ").
    rewrite loop_open_span; [done..| |done].
    by apply nospace_app_quote.
  - intros s q w Hw Hin.
    pose proof (safeSplit_tokens s) as Htok.
    rewrite Forall_forall in Htok. destruct (Htok _ Hin) as [Hsp|[Hs Hd]].
    + assert (nospace (quoteStr q +:+ w +:+ quoteStr q) = true) as Hns
        by by apply nospace_quote, nospace_app_quote.
      unfold nospace in Hns. by rewrite Hsp in Hns.
    + pose proof (HasPrefix_quote q (w +:+ quoteStr q)) as Hp.
      by rewrite Hs, Hd in Hp.
  - reflexivity.
Qed.

Lemma safeSplit_quoted_word_opens_span_witness :
  safeSplit_step (SplitState ["run"] "" "") "'abc'"
  = SplitState ["run"] "'" "abc' "
  ∧ safeSplit "'abc' d e" = []
  ∧ ("'abc'" ∉ safeSplit "run 'abc' d")
  ∧ safeSplit "'a' b" = [].
Proof.
  destruct safeSplit_quoted_word_opens_span as (Hstep & Hdrop & Hnot & Hex).
  split; [|split; [|split]].
  - apply (Hstep (SplitState ["run"] "" "") SingleQuote "abc"). reflexivity.
  - apply (Hdrop SingleQuote "abc" ["d"; "e"]); [reflexivity|].
    repeat constructor.
  - apply (Hnot "run 'abc' d" SingleQuote "abc"). reflexivity.
  - exact Hex.
Defined.

End tokenizer.

(** ** Zone record normalizer *)

Section normalizer.
Import strings strings_facts.

Lemma prepareZoneFile_step_kept auth ret line :
  prepareZoneFile_step auth ret line
  = if kept auth line then <[line := true]> ret else ret.
Proof.
  unfold prepareZoneFile_step, kept.
  destruct (HasPrefix line "$ORIGIN"); [done|].
  by destruct (negb auth && (Contains line " NS " || Contains line " SOA ")).
Qed.

Lemma prepare_loop_lookup auth lines (m : gmap string bool) k :
  fold_left (prepareZoneFile_step auth) lines m !! k
  = if decide (k ∈ lines ∧ kept auth k = true) then Some true else m !! k.
Proof.
  revert m. induction lines as [|l lines IH]; intros m; cbn [fold_left].
  - case_decide as H; [|done]. destruct H as [H _]. by apply elem_of_nil in H.
  - rewrite IH, prepareZoneFile_step_kept.
    destruct (decide (k = l)) as [->|Hne].
    + destruct (kept auth l) eqn:Hk.
      * rewrite lookup_insert_eq.
        rewrite (decide_True (P := l ∈ l :: lines ∧ _)) by set_solver.
        by case_decide.
      * rewrite (decide_False (P := l ∈ lines ∧ _)) by naive_solver.
        by rewrite (decide_False (P := l ∈ l :: lines ∧ _)) by naive_solver.
    + assert ((if kept auth l then <[l:=true]> m else m) !! k = m !! k) as ->.
      { destruct (kept auth l); [|done]. by rewrite lookup_insert_ne. }
      destruct (decide (k ∈ lines ∧ kept auth k = true)) as [H|H].
      * by rewrite decide_True by set_solver.
      * by rewrite decide_False by set_solver.
Qed.

(** What the normalizer stores: exactly the kept lines, each mapped to
    [true]. *)
Lemma prepareZoneFile_lookup b auth k :
  prepareZoneFile b auth !! k
  = if decide (k ∈ zoneLines b ∧ kept auth k = true) then Some true else None.
Proof. unfold prepareZoneFile. by rewrite prepare_loop_lookup, lookup_empty. Qed.

Lemma prepareZoneFile_Some b auth k v :
  prepareZoneFile b auth !! k = Some v
  ↔ v = true ∧ k ∈ zoneLines b ∧ kept auth k = true.
Proof. rewrite prepareZoneFile_lookup. case_decide; naive_solver. Qed.

Lemma elem_of_dom_prepareZoneFile b auth k :
  k ∈ dom (prepareZoneFile b auth) ↔ k ∈ zoneLines b ∧ kept auth k = true.
Proof.
  rewrite elem_of_dom. unfold is_Some.
  setoid_rewrite prepareZoneFile_Some. naive_solver.
Qed.

(** The stored set does not depend on the order or the multiplicity of
    the lines. *)
Lemma prepareZoneFile_lines b1 b2 auth :
  (∀ k, k ∈ zoneLines b1 ↔ k ∈ zoneLines b2) →
  prepareZoneFile b1 auth = prepareZoneFile b2 auth.
Proof.
  intros Hl. apply map_eq. intros k. rewrite !prepareZoneFile_lookup.
  repeat case_decide; try done; exfalso; naive_solver.
Qed.

Lemma prepareZoneFile_dom_eq b1 b2 auth :
  dom (prepareZoneFile b1 auth) = dom (prepareZoneFile b2 auth)
  ↔ prepareZoneFile b1 auth = prepareZoneFile b2 auth.
Proof.
  split; [|by intros ->]. intros Hdom. apply map_eq. intros k.
  assert (k ∈ dom (prepareZoneFile b1 auth) ↔ k ∈ dom (prepareZoneFile b2 auth))
    as Hk by by rewrite Hdom.
  rewrite !elem_of_dom_prepareZoneFile in Hk.
  rewrite !prepareZoneFile_lookup. repeat case_decide; try done; exfalso; naive_solver.
Qed.

(** A string found inside a string without a space has no space. *)
Lemma prefix_space p w :
  String.prefix p w = true → Contains p " " = true → Contains w " " = true.
Proof.
  revert w. induction p as [|a p IH]; intros w; [done|].
  destruct w as [|c w]; [done|]. rewrite prefix_cons.
  destruct (ascii_dec a c) as [->|]; [|done].
  rewrite !Contains_cons_space. intros Hp [Hc|Hc]%orb_true_iff.
  - by rewrite Hc.
  - by rewrite (IH w Hp Hc), orb_true_r.
Qed.

Lemma Contains_space_trans w sub :
  Contains w sub = true → Contains sub " " = true → Contains w " " = true.
Proof.
  intros Hw Hsub. induction w as [|c w IH].
  - simpl in Hw. rewrite orb_false_r in Hw. by apply (prefix_space sub).
  - rewrite Contains_cons in Hw. apply orb_true_iff in Hw as [Hw|Hw].
    + by apply (prefix_space sub).
    + by rewrite Contains_cons_space, IH, orb_true_r.
Qed.

Lemma nospace_Contains w sub :
  nospace w = true → Contains sub " " = true → Contains w sub = false.
Proof.
  unfold nospace. intros Hw Hsub.
  destruct (Contains w sub) eqn:E; [|done].
  by rewrite (Contains_space_trans w sub E Hsub) in Hw.
Qed.

(** A type token that starts the line has no space before it. *)
Lemma leading_token_kept tok w :
  tok = "NS" ∨ tok = "SOA" → nospace w = true →
  kept false (tok +:+ " " +:+ w) = true.
Proof.
  intros Htok Hw.
  assert (∀ sub, sub = " NS " ∨ sub = " SOA " →
                 Contains (tok +:+ " " +:+ w) sub = false) as Hsub.
  { intros sub Hs.
    assert (String.prefix (strings.drop 1 sub) w = false) as Hp.
    { destruct (String.prefix (strings.drop 1 sub) w) eqn:E; [|done].
      apply prefix_space in E; [|by destruct Hs as [-> | ->]].
      unfold nospace in Hw. by rewrite E in Hw. }
    assert (Contains w sub = false) as Hc.
    { apply nospace_Contains; [done|]. by destruct Hs as [-> | ->]. }
    destruct Htok as [-> | ->], Hs as [-> | ->];
      rewrite !app_cons, !app_nil_l, !Contains_cons, !prefix_cons; simpl;
      simpl in Hp; rewrite ?app_nil_l, ?Hp, ?Hc; done. }
  unfold kept. rewrite (Hsub " NS "), (Hsub " SOA ") by auto.
  by destruct Htok as [-> | ->].
Qed.

(** A type token that ends the line has no space after it. *)
Lemma trailing_token_Contains tok sub w :
  tok = "NS" ∨ tok = "SOA" → sub = " NS " ∨ sub = " SOA " →
  nospace w = true → Contains (w +:+ " " +:+ tok) sub = false.
Proof.
  intros Htok Hsub. unfold nospace. induction w as [|c w IH].
  - intros _. by destruct Htok as [-> | ->], Hsub as [-> | ->].
  - rewrite Contains_cons_space, negb_orb.
    intros [Hc Hw]%andb_true_iff. apply negb_true_iff in Hc.
    rewrite app_cons, Contains_cons, (IH Hw), orb_false_r.
    assert (c ≠ " "%char) as Hne by by intros ->.
    destruct Hsub as [-> | ->]; rewrite prefix_cons;
      by destruct (ascii_dec " " c) as [<-|].
Qed.

Lemma trailing_token_kept tok w :
  tok = "NS" ∨ tok = "SOA" → nospace w = true →
  HasPrefix (w +:+ " " +:+ tok) "$ORIGIN" = false →
  kept false (w +:+ " " +:+ tok) = true.
Proof.
  intros Htok Hw Hp. unfold kept.
  by rewrite Hp, !(trailing_token_Contains tok) by auto.
Qed.

(** C4. A line that begins with [$ORIGIN] is never stored; without
    authority a line with [ NS ] or [ SOA ] in it is not stored; every
    other line is stored as it is; the blob of an origin line, an NS
    line and an A line gives, without authority, the set of the A line
    alone. *)
Theorem prepareZoneFile_excludes :
  (∀ b auth line,
      HasPrefix line "$ORIGIN" = true → prepareZoneFile b auth !! line = None)
  ∧ (∀ b line,
      Contains line " NS " = true ∨ Contains line " SOA " = true →
      prepareZoneFile b false !! line = None)
  ∧ (∀ b auth line,
      line ∈ zoneLines b →
      HasPrefix line "$ORIGIN" = false →
      auth = true ∨ (Contains line " NS " = false ∧ Contains line " SOA " = false) →
      prepareZoneFile b auth !! line = Some true)
  ∧ prepareZoneFile zone_origin_ns_a false
    = {[ "a.example.com. 300 IN A 1.2.3.4" := true ]}.
Proof.
  split; [|split; [|split]].
  - intros b auth line Hp. rewrite prepareZoneFile_lookup.
    apply decide_False. unfold kept. rewrite Hp. naive_solver.
  - intros b line Hc. rewrite prepareZoneFile_lookup.
    apply decide_False. unfold kept. intros [_ Hk].
    destruct Hc as [Hc|Hc]; rewrite Hc in Hk; simpl in Hk;
      rewrite ?orb_true_r, ?andb_false_r in Hk; done.
  - intros b auth line Hin Hp Hc. rewrite prepareZoneFile_lookup.
    apply decide_True. split; [done|]. unfold kept. rewrite Hp.
    destruct Hc as [->|[-> ->]]; [done|]. by rewrite andb_false_r.
  - vm_compute. reflexivity.
Qed.

Lemma prepareZoneFile_excludes_witness :
  prepareZoneFile zone_origin_ns_a true !! "$ORIGIN example.com." = None
  ∧ prepareZoneFile zone_origin_ns_a false
      !! "example.com. 300 IN NS ns1.example.com." = None
  ∧ prepareZoneFile zone_origin_ns_a true
      !! "example.com. 300 IN NS ns1.example.com." = Some true.
Proof.
  destruct prepareZoneFile_excludes as (Horigin & Hauth & Hkept & _).
  split; [|split].
  - apply Horigin. reflexivity.
  - apply Hauth. left. reflexivity.
  - apply Hkept.
    + refine (bool_decide_unpack _ _). vm_compute. exact I.
    + reflexivity.
    + left. reflexivity.
Defined.

(** C10. Without authority the stored lines are exactly the lines
    that do not begin with [$ORIGIN] and have neither [ NS ] nor
    [ SOA ] as a substring once tabs are spaces.  A TXT line with
    [ NS ] in its data is dropped; a line that only starts or only
    ends with the token [NS] or [SOA] is stored. *)
Theorem prepareZoneFile_authority_is_substring_test :
  (∀ b line,
      line ∈ dom (prepareZoneFile b false)
      ↔ line ∈ Split (Replace b tab " ") "010"%char
        ∧ HasPrefix line "$ORIGIN" = false
        ∧ Contains line " NS " = false
        ∧ Contains line " SOA " = false)
  ∧ (∀ b tok w,
      tok = "NS" ∨ tok = "SOA" → nospace w = true →
      tok +:+ " " +:+ w ∈ zoneLines b →
      tok +:+ " " +:+ w ∈ dom (prepareZoneFile b false))
  ∧ (∀ b tok w,
      tok = "NS" ∨ tok = "SOA" → nospace w = true →
      HasPrefix (w +:+ " " +:+ tok) "$ORIGIN" = false →
      w +:+ " " +:+ tok ∈ zoneLines b →
      w +:+ " " +:+ tok ∈ dom (prepareZoneFile b false))
  ∧ prepareZoneFile "t.example.com. 300 IN TXT a NS b" false = ∅
  ∧ prepareZoneFile ("t.example.com." +:+ tab +:+ "300" +:+ tab +:+ "IN"
                     +:+ tab +:+ "TXT" +:+ tab +:+ "a" +:+ tab +:+ "SOA"
                     +:+ tab +:+ "b") false = ∅
  ∧ prepareZoneFile "NS ns1.example.com." false
    = {[ "NS ns1.example.com." := true ]}
  ∧ prepareZoneFile "example.com. 300 IN SOA" false
    = {[ "example.com. 300 IN SOA" := true ]}.
Proof.
  split; [|split; [|split; [|repeat split; vm_compute; reflexivity]]].
  - intros b line. rewrite elem_of_dom_prepareZoneFile. unfold kept, zoneLines.
    destruct (HasPrefix line "$ORIGIN"), (Contains line " NS "),
      (Contains line " SOA "); naive_solver.
  - intros b tok w Htok Hw Hin. apply elem_of_dom_prepareZoneFile.
    split; [done|]. by apply leading_token_kept.
  - intros b tok w Htok Hw Hp Hin. apply elem_of_dom_prepareZoneFile.
    split; [done|]. by apply trailing_token_kept.
Qed.

Lemma prepareZoneFile_authority_is_substring_test_witness :
  "NS ns1.example.com." ∈ dom (prepareZoneFile "NS ns1.example.com." false)
  ∧ "example.com. SOA" ∈ dom (prepareZoneFile "example.com. SOA" false).
Proof.
  destruct prepareZoneFile_authority_is_substring_test
    as (_ & Hlead & Htrail & _).
  split.
  - apply (Hlead "NS ns1.example.com." "NS" "ns1.example.com.").
    + left. reflexivity.
    + reflexivity.
    + refine (bool_decide_unpack _ _). vm_compute. exact I.
  - apply (Htrail "example.com. SOA" "SOA" "example.com.").
    + right. reflexivity.
    + reflexivity.
    + reflexivity.
    + refine (bool_decide_unpack _ _). vm_compute. exact I.
Defined.

End normalizer.

(** ** Zone diff *)

Section diff.
Import strings strings_facts.

Lemma concatMsgs_app l1 l2 :
  concatMsgs (l1 ++ l2) = concatMsgs l1 +:+ concatMsgs l2.
Proof.
  induction l1 as [|m l1 IH]; [done|].
  simpl. by rewrite IH, app_assoc.
Qed.

Lemma concatMsgs_nil_inv msgs :
  Forall (λ m, m ≠ EmptyString) msgs → concatMsgs msgs = EmptyString → msgs = [].
Proof.
  intros Hmsgs. destruct Hmsgs as [|m msgs Hm _]; [done|].
  simpl. destruct m; [done|]. by rewrite app_cons.
Qed.

Lemma actual_loop l errors :
  fold_left compare_actual_step l errors
  = errors +:+ concatMsgs (fmap unexpectedMsg l).
Proof.
  revert errors. induction l as [|k l IH]; intros errors; simpl.
  - by rewrite app_nil_r.
  - rewrite IH. unfold compare_actual_step. by rewrite app_assoc.
Qed.

Lemma deletes_lookup ks (m : gmap string bool) k :
  deletes ks m !! k = if decide (k ∈ ks) then None else m !! k.
Proof.
  revert m. induction ks as [|k' ks IH]; intros m.
  - by rewrite decide_False by set_solver.
  - unfold deletes in *. cbn [fold_left]. rewrite IH.
    destruct (decide (k ∈ ks)) as [Hin|Hin].
    + by rewrite decide_True by set_solver.
    + destruct (decide (k = k')) as [->|Hne].
      * by rewrite lookup_delete_eq, decide_True by set_solver.
      * by rewrite lookup_delete_ne, decide_False by set_solver.
Qed.

(** The first loop, over keys visited once each: the visited keys are
    deleted from [mactual], and there is one message for each visited
    key that [mactual] did not have. *)
Lemma expected_loop ks (mactual : gmap string bool) errors :
  NoDup ks →
  ∃ missing,
    fold_left compare_expected_step ks (mactual, errors)
    = (deletes ks mactual, errors +:+ concatMsgs (fmap missingMsg missing))
    ∧ NoDup missing
    ∧ ∀ k, k ∈ missing ↔ k ∈ ks ∧ mactual !! k = None.
Proof.
  intros Hks. revert mactual errors.
  induction Hks as [|k ks Hk Hks IH]; intros mactual errors.
  - exists []. simpl. rewrite app_nil_r. split; [done|]. split; [constructor|].
    set_solver.
  - cbn [fold_left]. unfold compare_expected_step at 2.
    destruct (mactual !! k) as [v|] eqn:Hlook.
    + destruct (IH (delete k mactual) errors) as (missing & -> & Hnd & Hin).
      exists missing. split; [done|]. split; [done|].
      intros k'. rewrite Hin. split.
      * intros [Hk' Hnone]. split; [set_solver|].
        rewrite lookup_delete_ne in Hnone; [done|]. by intros ->.
      * intros [Hk' Hnone]. apply elem_of_cons in Hk' as [->|Hk']; [congruence|].
        split; [done|]. rewrite lookup_delete_ne; [done|]. by intros ->.
    + destruct (IH mactual (errors +:+ missingMsg k)) as (missing & -> & Hnd & Hin).
      exists (k :: missing). split; [|split].
      * unfold deletes. cbn [fold_left]. rewrite delete_id by done.
        simpl. by rewrite !app_assoc.
      * constructor; [|done]. rewrite Hin. naive_solver.
      * intros k'. rewrite elem_of_cons, Hin. split.
        -- intros [->|[? ?]]; set_solver.
        -- intros [[->|?]%elem_of_cons ?]; auto.
Qed.

Lemma missingMsg_nonempty k : missingMsg k ≠ EmptyString.
Proof. done. Qed.

Lemma unexpectedMsg_nonempty k : unexpectedMsg k ≠ EmptyString.
Proof. done. Qed.

(** Every report [compareDomains] can return lists the symmetric
    difference of the two sets. *)
Lemma compareDomains_report expected actual auth errors :
  compareDomains_returns expected actual auth errors →
  ∃ missing unexpected,
    missing ≡ₚ elements (dom (prepareZoneFile expected auth)
                           ∖ dom (prepareZoneFile actual auth))
    ∧ unexpected ≡ₚ elements (dom (prepareZoneFile actual auth)
                                ∖ dom (prepareZoneFile expected auth))
    ∧ errors = concatMsgs (fmap missingMsg missing ++ fmap unexpectedMsg unexpected).
Proof.
  intros (ke & ka & Hke & Hka & ->).
  unfold range_order in Hke, Hka.
  assert (NoDup ke) as Hnd by (rewrite Hke; apply NoDup_elements).
  unfold compareDomains_in, compare_remaining in *.
  destruct (expected_loop ke (prepareZoneFile actual auth) EmptyString Hnd)
    as (missing & Hloop & Hndm & Hin).
  rewrite Hloop in *. simpl in Hka.
  exists missing, ka. split; [|split].
  - apply NoDup_Permutation; [done|apply NoDup_elements|].
    intros k. rewrite Hin, elem_of_elements, elem_of_difference, Hke,
      elem_of_elements, not_elem_of_dom. done.
  - rewrite Hka. f_equiv. intros k.
    rewrite elem_of_difference.
    rewrite <- (elem_of_elements (dom (prepareZoneFile expected auth))), <- Hke.
    rewrite !elem_of_dom, deletes_lookup.
    case_decide; [|naive_solver]. split; [by intros []%is_Some_None|naive_solver].
  - by rewrite actual_loop, app_nil_l, concatMsgs_app.
Qed.

Lemma compareDomains_runs expected actual auth :
  compareDomains_returns expected actual auth
    (compareDomains expected actual auth).
Proof.
  exists (elements (dom (prepareZoneFile expected auth))),
    (elements (dom (compare_remaining
                      (elements (dom (prepareZoneFile expected auth)))
                      actual auth))).
  split; [by unfold range_order|]. split; [by unfold range_order|].
  unfold compareDomains, compareDomains_in, compare_remaining.
  by destruct (fold_left compare_expected_step _ _).
Qed.

Lemma compareDomains_empty expected actual auth errors :
  compareDomains_returns expected actual auth errors →
  errors = EmptyString
  ↔ dom (prepareZoneFile expected auth) = dom (prepareZoneFile actual auth).
Proof.
  intros (missing & unexpected & Hm & Hu & ->)%compareDomains_report.
  split.
  - intros Hnil. apply concatMsgs_nil_inv in Hnil.
    + apply app_eq_nil in Hnil as [Hm0 Hu0].
      apply fmap_nil_inv in Hm0, Hu0. subst.
      symmetry in Hm, Hu.
      apply Permutation_nil_r, elements_empty_inv in Hm, Hu.
      apply set_eq. intros k.
      destruct (decide (k ∈ dom (prepareZoneFile expected auth)));
        destruct (decide (k ∈ dom (prepareZoneFile actual auth)));
        set_solver.
    + apply Forall_app. split; apply Forall_fmap, Forall_true; intros k;
        [apply missingMsg_nonempty | apply unexpectedMsg_nonempty].
  - intros Heq. rewrite Heq, difference_diag_L, elements_empty in Hm, Hu.
    apply Permutation_nil_r in Hm, Hu. by subst.
Qed.

(** The reports depend on the two sets only. *)
Lemma compareDomains_sets e1 e2 a1 a2 auth errors :
  prepareZoneFile e1 auth = prepareZoneFile e2 auth →
  prepareZoneFile a1 auth = prepareZoneFile a2 auth →
  compareDomains_returns e1 a1 auth errors →
  compareDomains_returns e2 a2 auth errors.
Proof.
  intros He Ha (ke & ka & Hke & Hka & ->).
  exists ke, ka.
  unfold compareDomains_in, compare_remaining in *.
  rewrite <- He, <- Ha. done.
Qed.

(** Tabs and spaces between fields compare equal. *)
Example compareDomains_tabs_spaces :
  compareDomains a_record_spaces a_record_tabs false = EmptyString.
Proof. vm_compute. reflexivity. Qed.

(** C5. Every report lists the symmetric difference of the two sets,
    one [missing] message for each line of expected that actual lacks
    and then one [unexpected] message for each line of actual that
    expected lacks; the report is empty exactly when the sets are
    equal; a report exists for every input; blobs with the same lines
    in another order have the same reports; [a, b] against [b, c]
    reports [a] missing and [c] unexpected, in whatever order the
    lines were given. *)
Theorem compareDomains_symmetric_difference :
  (∀ expected actual auth errors,
      compareDomains_returns expected actual auth errors →
      (∃ missing unexpected,
          missing ≡ₚ elements (dom (prepareZoneFile expected auth)
                                 ∖ dom (prepareZoneFile actual auth))
          ∧ unexpected ≡ₚ elements (dom (prepareZoneFile actual auth)
                                      ∖ dom (prepareZoneFile expected auth))
          ∧ errors = concatMsgs (fmap missingMsg missing
                                   ++ fmap unexpectedMsg unexpected))
      ∧ (errors = EmptyString
         ↔ dom (prepareZoneFile expected auth)
           = dom (prepareZoneFile actual auth)))
  ∧ (∀ expected actual auth,
      compareDomains_returns expected actual auth
        (compareDomains expected actual auth))
  ∧ (∀ e1 e2 a1 a2 auth errors,
      zoneLines e1 ≡ₚ zoneLines e2 → zoneLines a1 ≡ₚ zoneLines a2 →
      compareDomains_returns e1 a1 auth errors
      ↔ compareDomains_returns e2 a2 auth errors)
  ∧ (∀ auth errors,
      compareDomains_returns (lines2 "a" "b") (lines2 "b" "c") auth errors
      ∨ compareDomains_returns (lines2 "b" "a") (lines2 "c" "b") auth errors →
      errors = missingMsg "a" +:+ unexpectedMsg "c").
Proof.
  split; [|split; [|split]].
  - intros expected actual auth errors Hret. split.
    + by apply compareDomains_report.
    + by apply compareDomains_empty.
  - apply compareDomains_runs.
  - intros e1 e2 a1 a2 auth errors He Ha.
    assert (prepareZoneFile e1 auth = prepareZoneFile e2 auth) as He'.
    { apply prepareZoneFile_lines. intros k. by rewrite He. }
    assert (prepareZoneFile a1 auth = prepareZoneFile a2 auth) as Ha'.
    { apply prepareZoneFile_lines. intros k. by rewrite Ha. }
    split; by apply compareDomains_sets.
  - intros auth errors Hret.
    assert (compareDomains_returns (lines2 "a" "b") (lines2 "b" "c") auth errors)
      as Hret'.
    { destruct Hret as [Hret|Hret]; [done|].
      revert Hret.
      apply compareDomains_sets; destruct auth; vm_compute; reflexivity. }
    apply compareDomains_report in Hret'
      as (missing & unexpected & Hm & Hu & ->).
    assert (missing = ["a"] ∧ unexpected = ["c"]) as [-> ->]; [|done].
    split; apply Permutation_singleton_r.
    + rewrite Hm. destruct auth; vm_compute; reflexivity.
    + rewrite Hu. destruct auth; vm_compute; reflexivity.
Qed.

Lemma compareDomains_symmetric_difference_witness :
  compareDomains (lines2 "a" "b") (lines2 "b" "c") false
  = missingMsg "a" +:+ unexpectedMsg "c"
  ∧ (compareDomains (lines2 "a" "b") (lines2 "b" "a") true = EmptyString
     ↔ dom (prepareZoneFile (lines2 "a" "b") true)
       = dom (prepareZoneFile (lines2 "b" "a") true)).
Proof.
  destruct compareDomains_symmetric_difference as (Hrep & Hrun & _ & Hex).
  split.
  - apply (Hex false). left. apply Hrun.
  - apply (Hrep (lines2 "a" "b") (lines2 "b" "a") true). apply Hrun.
Defined.

End diff.

(** ** Fixture lifecycle *)

Section lifecycle.
Context {X : Type} (env : Env X).

(** [cleanupDomain], run step by step.  A failed listing ends the
    process; after a listing that succeeds, neither deletion call can:
    their errors only add warning lines. *)
Lemma cleanupDomain_run id w x1 rrsets err1 x2 err2 x3 err3 :
  ListAllRecordSets env id (external w) = (x1, (rrsets, err1)) →
  (if (0 <? length (cleanupChanges rrsets))%nat
   then ChangeResourceRecordSets env id (cleanupChanges rrsets) x1
   else (x1, None)) = (x2, err2) →
  DeleteHostedZone env id x2 = (x3, err3) →
  cleanupDomain env id w =
  match err1 with
  | Some e =>
      (Exited ("Unexpected error: " +:+ e),
       {| external := x1; domainVar := domainVar w;
          cleanupIds := cleanupIds w; runOutput := runOutput w;
          calls := calls w ++ [CallListAllRecordSets id];
          printed := printed w; failures := failures w |})
  | None =>
      (Done tt,
       {| external := x3; domainVar := domainVar w;
          cleanupIds := cleanupIds w; runOutput := runOutput w;
          calls := (calls w ++ [CallListAllRecordSets id])
                   ++ (if (0 <? length (cleanupChanges rrsets))%nat
                       then [CallChangeResourceRecordSets id (cleanupChanges rrsets)]
                       else [])
                   ++ [CallDeleteHostedZone id];
          printed := printed w ++ warningOf err2 ++ warningOf err3;
          failures := failures w |})
  end.
Proof.
  intros Hlist Hchange Hdelete.
  unfold cleanupDomain. unfold_M. rewrite Hlist.
  destruct err1 as [e|]; [done|]. simpl.
  destruct (0 <? length (cleanupChanges rrsets))%nat; simpl.
  - rewrite Hchange. destruct err2 as [e2|]; simpl;
      rewrite Hdelete; destruct err3 as [e3|]; simpl;
      rewrite <- ?(assoc_L (++)), ?(right_id_L [] (++)); done.
  - injection Hchange as <- <-. rewrite Hdelete.
    destruct err3 as [e3|]; simpl;
      rewrite <- ?(assoc_L (++)), ?(right_id_L [] (++)); done.
Qed.

Lemma deleteCalls_app cs1 cs2 :
  deleteCalls (cs1 ++ cs2) = deleteCalls cs1 ++ deleteCalls cs2.
Proof. apply omap_app. Qed.

(** What one [cleanupDomain] does when its listing succeeds. *)
Lemma cleanupDomain_listed id w :
  (ListAllRecordSets env id (external w)).2.2 = None →
  ∃ w' err2 err3,
    cleanupDomain env id w = (Done tt, w')
    ∧ printed w' = printed w ++ warningOf err2 ++ warningOf err3
    ∧ deleteCalls (calls w') = deleteCalls (calls w) ++ [id]
    ∧ cleanupIds w' = cleanupIds w
    ∧ failures w' = failures w.
Proof.
  destruct (ListAllRecordSets env id (external w)) as [x1 [rrsets err1]] eqn:Hlist.
  simpl. intros ->.
  destruct (if (0 <? length (cleanupChanges rrsets))%nat
            then ChangeResourceRecordSets env id (cleanupChanges rrsets) x1
            else (x1, None)) as [x2 err2] eqn:Hchange.
  destruct (DeleteHostedZone env id x2) as [x3 err3] eqn:Hdelete.
  eexists _, err2, err3.
  rewrite (cleanupDomain_run id w _ _ _ _ _ _ _ Hlist Hchange Hdelete).
  split; [done|]. simpl. split; [done|]. split; [|done].
  rewrite !deleteCalls_app. simpl.
  destruct (0 <? length (cleanupChanges rrsets))%nat; simpl;
    by rewrite ?(right_id_L [] (++)).
Qed.

(** How one [cleanupDomain] can end: it returns, or its listing
    failed. *)
Lemma cleanupDomain_outcome id w r w' :
  cleanupDomain env id w = (r, w') →
  r = Done tt
  ∨ ∃ e, r = Exited ("Unexpected error: " +:+ e)
         ∧ (ListAllRecordSets env id (external w)).2.2 = Some e.
Proof.
  destruct (ListAllRecordSets env id (external w)) as [x1 [rrsets err1]] eqn:Hlist.
  destruct (if (0 <? length (cleanupChanges rrsets))%nat
            then ChangeResourceRecordSets env id (cleanupChanges rrsets) x1
            else (x1, None)) as [x2 err2] eqn:Hchange.
  destruct (DeleteHostedZone env id x2) as [x3 err3] eqn:Hdelete.
  rewrite (cleanupDomain_run id w _ _ _ _ _ _ _ Hlist Hchange Hdelete).
  destruct err1 as [e|]; intros [= <- <-]; [right|left]; eauto.
Qed.

Lemma forEach_cons {A} (a : A) l (body : A → M X unit) w :
  forEach (a :: l) body w
  = match body a w with
    | (Done _, w') => forEach l body w'
    | (Exited msg, w') => (Exited msg, w')
    | (Panicked msg, w') => (Panicked msg, w')
    end.
Proof. reflexivity. Qed.

(** The loop of the teardown ends early only on a failed listing. *)
Lemma teardown_loop_outcome ids w r w' :
  forEach ids (cleanupDomain env) w = (r, w') →
  r = Done tt
  ∨ ∃ id x e, id ∈ ids
              ∧ (ListAllRecordSets env id x).2.2 = Some e
              ∧ r = Exited ("Unexpected error: " +:+ e).
Proof.
  revert w. induction ids as [|id ids IH]; intros w.
  - intros [= <- <-]. by left.
  - rewrite forEach_cons.
    destruct (cleanupDomain env id w) as [r1 w1] eqn:Hrun.
    apply cleanupDomain_outcome in Hrun as [->|(e & -> & He)].
    + intros [->|(id' & x & e & ? & ? & ->)]%IH; [by left|right].
      exists id', x, e. set_solver.
    + intros [= <- <-]. right. exists id, (external w), e. set_solver.
Qed.

(** With listings that succeed the loop visits every handle. *)
Lemma teardown_loop_listed ids w :
  (∀ id x, (ListAllRecordSets env id x).2.2 = None) →
  ∃ w', forEach ids (cleanupDomain env) w = (Done tt, w')
        ∧ deleteCalls (calls w') = deleteCalls (calls w) ++ ids
        ∧ cleanupIds w' = cleanupIds w
        ∧ failures w' = failures w.
Proof.
  intros Hok. revert w. induction ids as [|id ids IH]; intros w.
  - exists w. by rewrite (right_id_L [] (++)).
  - rewrite forEach_cons.
    destruct (cleanupDomain_listed id w (Hok _ _))
      as (w1 & err2 & err3 & -> & _ & Hd1 & Hc1 & Hf1).
    destruct (IH w1) as (w' & -> & Hd & Hc & Hf).
    exists w'. split; [done|].
    rewrite Hd, Hd1, Hc, Hc1, Hf, Hf1, <- (assoc_L (++)). done.
Qed.

Lemma After_run w :
  After env w
  = match cleanupIds w with
    | [] => (Done tt, w)
    | _ :: _ =>
        match forEach (cleanupIds w) (cleanupDomain env) w with
        | (Done _, w') => setCleanupIds [] w'
        | (Exited msg, w') => (Exited msg, w')
        | (Panicked msg, w') => (Panicked msg, w')
        end
    end.
Proof.
  unfold After. unfold mbind, M_bind, bind, getCleanupIds.
  by destruct (cleanupIds w).
Qed.

(** C1, as the code has it. After a listing that succeeds, [cleanupDomain] returns
    whatever the two deletion calls answer: the zone deletion is
    attempted after a failed batch, each error prints one warning and
    nothing else is reported, and the loop goes on with the handles
    that follow.  The loop of the teardown can end early
    only by the fatal error of a failed listing, never by a deletion.
    When listings succeed, a zone deletion is attempted for every
    pending handle, in order, and the hook returns. *)
Theorem teardown_deletion_failures_are_warnings :
  (∀ id w x1 rrsets x2 err2 x3 err3,
      ListAllRecordSets env id (external w) = (x1, (rrsets, None)) →
      (if (0 <? length (cleanupChanges rrsets))%nat
       then ChangeResourceRecordSets env id (cleanupChanges rrsets) x1
       else (x1, None)) = (x2, err2) →
      DeleteHostedZone env id x2 = (x3, err3) →
      ∃ w', cleanupDomain env id w = (Done tt, w')
            ∧ printed w' = printed w ++ warningOf err2 ++ warningOf err3
            ∧ deleteCalls (calls w') = deleteCalls (calls w) ++ [id]
            ∧ failures w' = failures w
            ∧ ∀ ids, forEach (id :: ids) (cleanupDomain env) w
                     = forEach ids (cleanupDomain env) w')
  ∧ (∀ ids w r w',
      forEach ids (cleanupDomain env) w = (r, w') →
      r = Done tt
      ∨ ∃ id x e, id ∈ ids
                  ∧ (ListAllRecordSets env id x).2.2 = Some e
                  ∧ r = Exited ("Unexpected error: " +:+ e))
  ∧ ((∀ id x, (ListAllRecordSets env id x).2.2 = None) →
     ∀ w, ∃ w', After env w = (Done tt, w')
                ∧ deleteCalls (calls w') = deleteCalls (calls w) ++ cleanupIds w
                ∧ failures w' = failures w).
Proof.
  split; [|split].
  - intros id w x1 rrsets x2 err2 x3 err3 Hlist Hchange Hdelete.
    pose proof (cleanupDomain_run id w _ _ _ _ _ _ _ Hlist Hchange Hdelete) as Hrun.
    eexists. split; [exact Hrun|]. split; [done|]. split; [|split; [done|]].
    + simpl. rewrite !deleteCalls_app. simpl.
      destruct (0 <? length (cleanupChanges rrsets))%nat; simpl;
        by rewrite ?(right_id_L [] (++)).
    + intros ids. by rewrite forEach_cons, Hrun.
  - apply teardown_loop_outcome.
  - intros Hok w. rewrite After_run.
    destruct (cleanupIds w) as [|id ids] eqn:Hids.
    + exists w. by rewrite (right_id_L [] (++)).
    + destruct (teardown_loop_listed (id :: ids) w Hok) as (w' & -> & Hd & _ & Hf).
      eexists. split; [done|]. done.
Qed.


End lifecycle.

(** ** Scenario steps *)

Section steps.
Context {X : Type} (env : Env X).

(** The verification step, run step by step. *)
Lemma Then_the_domain_is_deleted_run name w d x1 zones :
  domainVar w = Some d →
  ListHostedZones env (external w) = (x1, (zones, None)) →
  let name' := strings.Replace name "$domain" d in
  let id := scanZones zones name' in
  Then_the_domain_is_deleted env name w =
  (Done tt,
   {| external := x1; domainVar := domainVar w;
      cleanupIds := if String.eqb id EmptyString then []
                    else cleanupIds w ++ [id];
      runOutput := runOutput w;
      calls := calls w ++ [CallListHostedZones];
      printed := printed w;
      failures := if String.eqb id EmptyString then failures w
                  else failures w ++ ["Domain " +:+ name' +:+ " was not deleted"] |}).
Proof.
  intros Hd Hlist name' id.
  unfold Then_the_domain_is_deleted, domainId. unfold_M.
  rewrite Hd, Hlist. simpl. fold name'. fold id.
  destruct (String.eqb id EmptyString); simpl; by rewrite Hd.
Qed.

(** C7, as the code has it. When the zone is still found the step
    reports a failure and registers the found handle again; when it is
    absent the step empties the registry, with every handle in it, and
    issues no deletion call. *)
Theorem Then_the_domain_is_deleted_clears_registry name w d x1 zones :
  domainVar w = Some d →
  ListHostedZones env (external w) = (x1, (zones, None)) →
  let name' := strings.Replace name "$domain" d in
  let id := scanZones zones name' in
  ∃ w', Then_the_domain_is_deleted env name w = (Done tt, w')
        ∧ calls w' = calls w ++ [CallListHostedZones]
        ∧ (id ≠ EmptyString →
           cleanupIds w' = cleanupIds w ++ [id]
           ∧ failures w' = failures w ++ ["Domain " +:+ name' +:+ " was not deleted"])
        ∧ (id = EmptyString →
           cleanupIds w' = [] ∧ failures w' = failures w).
Proof.
  intros Hd Hlist name' id. eexists.
  rewrite (Then_the_domain_is_deleted_run name w d x1 zones Hd Hlist).
  fold name'. fold id. split; [done|]. simpl. split; [done|].
  destruct (String.eqb_spec id EmptyString); split; intros; done.
Qed.

(** The command step, run step by step. *)
Lemma When_I_run_run cmd w d arg0 args x1 out err :
  domainVar w = Some d →
  safeSplit (strings.Replace cmd "$domain" d) = arg0 :: args →
  CombinedOutput env ("./" +:+ arg0) args (external w) = (x1, (out, err)) →
  When_I_run env cmd w =
  (Done tt,
   {| external := x1; domainVar := domainVar w;
      cleanupIds := cleanupIds w;
      runOutput := match err with None => out | Some _ => runOutput w end;
      calls := calls w ++ [CallCommand ("./" +:+ arg0) args];
      printed := printed w;
      failures := match err with
                  | None => failures w
                  | Some e => failures w ++ ["Error: " +:+ e +:+ " Output: " +:+ out]
                  end |}).
Proof.
  intros Hd Hargs Hrun. unfold When_I_run. unfold_M.
  rewrite Hd, Hargs, Hrun. destruct err; simpl; by rewrite Hd.
Qed.

(** C8, as the code has it. The step returns whether the command
    succeeds or fails. On success [runOutput] becomes the captured
    output. On failure the output goes into the failure message and
    [runOutput] keeps the value it had. *)
Theorem When_I_run_sets_runOutput_on_success cmd w d arg0 args x1 out err :
  domainVar w = Some d →
  safeSplit (strings.Replace cmd "$domain" d) = arg0 :: args →
  CombinedOutput env ("./" +:+ arg0) args (external w) = (x1, (out, err)) →
  ∃ w', When_I_run env cmd w = (Done tt, w')
        ∧ (err = None → runOutput w' = out ∧ failures w' = failures w)
        ∧ (∀ e, err = Some e →
                runOutput w' = runOutput w
                ∧ failures w' = failures w ++ ["Error: " +:+ e +:+ " Output: " +:+ out]).
Proof.
  intros Hd Hargs Hrun. eexists.
  rewrite (When_I_run_run cmd w d arg0 args x1 out err Hd Hargs Hrun).
  split; [done|]. simpl. split.
  - by intros ->.
  - by intros e ->.
Qed.

End steps.

(** ** Runs against the two providers *)

Lemma teardown_deletion_failures_are_warnings_witness :
  (∃ w', cleanupDomain flakyEnv "Z1" flakyWorld = (Done tt, w')
         ∧ printed w' = ["Warning: cleanup failed - Throttling" +:+ strings.nl;
                         "Warning: cleanup failed - HostedZoneNotEmpty" +:+ strings.nl]
         ∧ deleteCalls (calls w') = ["Z1"]
         ∧ failures w' = []
         ∧ ∀ ids, forEach ("Z1" :: ids) (cleanupDomain flakyEnv) flakyWorld
                  = forEach ids (cleanupDomain flakyEnv) w')
  ∧ (∃ w', After flakyEnv flakyWorld = (Done tt, w')
           ∧ deleteCalls (calls w') = ["Z1"; "Z2"]
           ∧ failures w' = []).
Proof.
  destruct (teardown_deletion_failures_are_warnings flakyEnv) as (Hone & _ & Hall).
  split.
  - apply (Hone "Z1" flakyWorld 1
             [rrset "example.com." "NS"; rrset "example.com." "SOA";
              rrset "a.example.com." "A"]
             2 (Some "Throttling") 3 (Some "HostedZoneNotEmpty"));
      vm_compute; reflexivity.
  - apply (Hall (λ id x, eq_refl) flakyWorld).
Defined.

(** C1, as stated, fails: with three handles pending, the deletion of
    the first zone fails and is logged as a warning, the record listing
    of the second fails and ends the process, and no call is ever issued
    for the third handle, which stands after the failing one. *)
Lemma teardown_stops_at_failed_listing :
  let w' := exec (After brokenListingEnv) threePending in
  (After brokenListingEnv threePending).1 = Exited "Unexpected error: Throttling"
  ∧ printed w' = ["Warning: cleanup failed - HostedZoneNotEmpty" +:+ strings.nl]
  ∧ calls w' = [CallListAllRecordSets "Z1"; CallDeleteHostedZone "Z1";
                CallListAllRecordSets "Z2"]
  ∧ ("Z3" ∈ cleanupIds threePending)
  ∧ ¬ ∃ c, c ∈ calls w' ∧ callHandle c = Some "Z3".
Proof.
  vm_compute. split; [reflexivity|]. split; [reflexivity|]. split; [reflexivity|].
  split.
  - apply list_elem_of_In. simpl. auto.
  - intros (c & Hc & Hid).
    repeat (apply elem_of_cons in Hc as [->|Hc]; [discriminate Hid|]).
    by apply elem_of_nil in Hc.
Qed.


Lemma Then_the_domain_is_deleted_clears_registry_witness :
  ∃ w', Then_the_domain_is_deleted memEnv "$domain"
          (exec two_domains_one_deleted (world0 {| zones := []; nextId := 0 |}))
        = (Done tt, w')
        ∧ cleanupIds w' = []
        ∧ deleteCalls (calls w') = [].
Proof.
  destruct (Then_the_domain_is_deleted_clears_registry memEnv "$domain"
              (exec two_domains_one_deleted (world0 {| zones := []; nextId := 0 |}))
              "cafe.example.com"
              {| zones := [{| Name := "other.cafe.example.com.";
                              Id := "/hostedzone/Z0x1" |}];
                 nextId := 2 |}
              [{| Name := "other.cafe.example.com."; Id := "/hostedzone/Z0x1" |}]
              ltac:(vm_compute; reflexivity) ltac:(vm_compute; reflexivity))
    as (w' & Hrun & Hcalls & _ & Habsent).
  exists w'. split; [exact Hrun|]. split.
  - apply Habsent. vm_compute. reflexivity.
  - rewrite Hcalls. vm_compute. reflexivity.
Defined.

(** The teardown against the failing provider: four warnings, both zone
    deletions attempted, the registry emptied, no failure reported. *)
Example After_flaky :
  After flakyEnv flakyWorld
  = (Done tt,
     {| external := 6; domainVar := Some "cafe.example.com";
        cleanupIds := []; runOutput := "earlier output";
        calls := [CallListAllRecordSets "Z1";
                  CallChangeResourceRecordSets "Z1"
                    [{| Action := "DELETE";
                        ChangeRecordSet := rrset "a.example.com." "A" |}];
                  CallDeleteHostedZone "Z1";
                  CallListAllRecordSets "Z2";
                  CallChangeResourceRecordSets "Z2"
                    [{| Action := "DELETE";
                        ChangeRecordSet := rrset "a.example.com." "A" |}];
                  CallDeleteHostedZone "Z2"];
        printed := ["Warning: cleanup failed - Throttling" +:+ strings.nl;
                    "Warning: cleanup failed - HostedZoneNotEmpty" +:+ strings.nl;
                    "Warning: cleanup failed - Throttling" +:+ strings.nl];
        failures := [] |}).
Proof. vm_compute. reflexivity. Qed.

(** A handle that is pending twice: the second listing fails and the
    process ends inside the teardown. *)
Example After_handle_twice :
  (After memEnv
     {| external := {| zones := [{| Name := "a.example.com."; Id := "Z7" |}];
                       nextId := 0 |};
        domainVar := None; cleanupIds := ["Z7"; "Z7"]; runOutput := EmptyString;
        calls := []; printed := []; failures := [] |}).1
  = Exited "Unexpected error: NoSuchHostedZone".
Proof. vm_compute. reflexivity. Qed.

(** A command line that is one quoted word and more: no token comes
    out, and indexing the first argument panics. *)
Example When_I_run_no_token :
  (When_I_run flakyEnv "'cli53' list" flakyWorld).1
  = Panicked "runtime error: index out of range".
Proof. vm_compute. reflexivity. Qed.

(** C7, as stated, fails: two domains were created and registered, the
    first was deleted by the binary; the step that confirms the deletion
    also drops the handle of the second, which stays at the provider
    after the teardown. *)
Lemma Then_the_domain_is_deleted_drops_other_handles :
  let w1 := exec two_domains_one_deleted (world0 {| zones := []; nextId := 0 |}) in
  let w2 := exec (Then_the_domain_is_deleted memEnv "$domain") w1 in
  let w3 := exec (After memEnv) w2 in
  cleanupIds w1 = ["/hostedzone/Z0x0"; "/hostedzone/Z0x1"]
  ∧ ("/hostedzone/Z0x1" ∉ cleanupIds w2)
  ∧ deleteCalls (calls w3) = []
  ∧ zones (external w3)
    = [{| Name := "other.cafe.example.com."; Id := "/hostedzone/Z0x1" |}].
Proof.
  vm_compute. split; [reflexivity|]. split; [|split; reflexivity].
  apply not_elem_of_nil.
Qed.

Lemma When_I_run_sets_runOutput_on_success_witness :
  ∃ w', When_I_run flakyEnv "cli53 list $domain" flakyWorld = (Done tt, w')
        ∧ runOutput w' = "earlier output"
        ∧ failures w' = ["Error: exit status 1 Output: boom"].
Proof.
  destruct (When_I_run_sets_runOutput_on_success flakyEnv "cli53 list $domain"
              flakyWorld "cafe.example.com" "cli53" ["list"; "cafe.example.com"]
              1 "boom" (Some "exit status 1") ltac:(vm_compute; reflexivity)
              ltac:(vm_compute; reflexivity) ltac:(vm_compute; reflexivity))
    as (w' & Hrun & _ & Hfail).
  exists w'. split; [exact Hrun|]. apply (Hfail "exit status 1"). reflexivity.
Defined.

(** C8, as stated, fails: the command exits non-zero with the output
    [boom]; afterwards [runOutput] still holds the earlier output. *)
Lemma When_I_run_failure_keeps_old_output :
  CombinedOutput flakyEnv "./cli53" ["list"; "cafe.example.com"] (external flakyWorld)
  = (1, ("boom", Some "exit status 1"))
  ∧ runOutput (exec (When_I_run flakyEnv "cli53 list $domain") flakyWorld)
    = "earlier output"
  ∧ runOutput (exec (When_I_run flakyEnv "cli53 list $domain") flakyWorld)
    ≠ "boom".
Proof. vm_compute. split; [reflexivity|]. split; [reflexivity|]. discriminate. Qed.

(** * Further properties *)

(** ** Argument tokenizer, continued *)

Section tokenizer_more.
Import strings strings_facts.

Lemma loop_plain fs st :
  inquote st = EmptyString →
  Forall (λ f, HasPrefix f squote = false ∧ HasPrefix f dquote = false) fs →
  safeSplit_loop st fs = SplitState (result st ++ fs) EmptyString (block st).
Proof.
  intros Hout Hfs. revert st Hout.
  induction Hfs as [|f fs [Hs Hd] _ IH]; intros st Hout.
  - simpl. rewrite List.app_nil_r. destruct st; simpl in *; by subst.
  - unfold safeSplit_loop in *. cbn [fold_left].
    rewrite step_word by done. rewrite IH by done.
    simpl. by rewrite <- List.app_assoc.
Qed.

(** X1. When no space-delimited fragment of the command line starts with
    a quote character, the tokens are the fragments themselves: the
    line is split at every single space, empty fragments included. *)
Theorem safeSplit_without_quotes s :
  Forall (λ f, HasPrefix f squote = false ∧ HasPrefix f dquote = false)
         (Split s " ") →
  safeSplit s = Split s " ".
Proof.
  intros Hfs. unfold safeSplit. by rewrite (loop_plain _ init).
Qed.

Lemma safeSplit_without_quotes_witness :
  safeSplit "cli53 rrcreate  a.b" = ["cli53"; "rrcreate"; ""; "a.b"].
Proof.
  apply (safeSplit_without_quotes "cli53 rrcreate  a.b").
  vm_compute. repeat constructor.
Defined.

Lemma step_emits st i :
  block_inv st →
  block_inv (safeSplit_step st i)
  ∧ (result (safeSplit_step st i) = result st
     ∨ result (safeSplit_step st i) = result st ++ [i]
     ∨ ∃ t, result (safeSplit_step st i) = result st ++ [t]
            ∧ Contains t " " = true).
Proof.
  intros Hblock. unfold safeSplit_step, block_inv in *.
  destruct (String.eqb_spec (inquote st) EmptyString) as [Hq|Hq].
  - destruct (HasPrefix i squote || HasPrefix i dquote); simpl.
    + split; [|by left]. intros _. by rewrite Contains_space_app, orb_true_r.
    + split; [done|]. right. by left.
  - specialize (Hblock Hq).
    destruct (HasSuffix i (inquote st)); simpl.
    + split; [done|]. right. right. eexists. split; [done|].
      by rewrite Contains_space_app, Hblock.
    + split; [|by left]. intros _. by rewrite Contains_space_app, Hblock.
Qed.

Lemma loop_emits fs st :
  block_inv st →
  (length (result (safeSplit_loop st fs)) ≤ length (result st) + length fs)%nat
  ∧ ∀ t, t ∈ result (safeSplit_loop st fs) →
         t ∈ result st ∨ t ∈ fs ∨ Contains t " " = true.
Proof.
  revert st. induction fs as [|f fs IH]; intros st Hst.
  - simpl. split; [lia|]. auto.
  - unfold safeSplit_loop in *. cbn [fold_left].
    destruct (step_emits st f Hst) as [Hst' Hres].
    destruct (IH _ Hst') as [Hlen Hin]. split.
    + destruct Hres as [Hr | [Hr | (t & Hr & _)]]; rewrite Hr in Hlen;
        rewrite ?List.length_app in Hlen; simpl in *; lia.
    + intros t Ht. apply Hin in Ht as [Ht|[Ht|Ht]]; [|set_solver|auto].
      destruct Hres as [Hr | [Hr | (t' & Hr & Ht')]]; rewrite Hr in Ht.
      * auto.
      * apply elem_of_app in Ht as [Ht|Ht]; [auto|]. set_solver.
      * apply elem_of_app in Ht as [Ht|Ht]; [auto|].
        apply list_elem_of_singleton in Ht as ->. auto.
Qed.

(** X2. The tokenizer never returns more tokens than the line has
    space-delimited fragments, and every token that has no space in it
    is one of those fragments, unchanged. *)
Theorem safeSplit_tokens_from_fragments s :
  (length (safeSplit s) ≤ length (Split s " "))%nat
  ∧ ∀ t, t ∈ safeSplit s → Contains t " " = false → t ∈ Split s " ".
Proof.
  destruct (loop_emits (Split s " ") init) as [Hlen Hin].
  { intros Hq. by contradict Hq. }
  split; [exact Hlen|].
  intros t Ht Hns. apply Hin in Ht as [Ht|[Ht|Ht]]; [|done|congruence].
  by apply elem_of_nil in Ht.
Qed.

End tokenizer_more.

(** ** Scenario steps, continued *)

Section steps_more.
Context {X : Type} (env : Env X).
Import strings strings_facts.

Lemma domain_set s (w : World X) d :
  domainVar w = Some d → domain s w = (Done (Replace s "$domain" d), w).
Proof. intros Hd. unfold domain. by rewrite Hd. Qed.

Lemma replaceFrom_absent s old new :
  Contains s old = false → replaceFrom 0 s old new = s.
Proof.
  induction s as [|c s IH]; [done|].
  rewrite Contains_cons. intros [Hp Hc]%orb_false_iff.
  cbn [replaceFrom]. rewrite Hp. by rewrite IH.
Qed.

(** X3. Text without the placeholder passes through the substitution
    unchanged, and the substitution touches nothing of the process. *)
Theorem domain_without_placeholder s (w : World X) d :
  domainVar w = Some d →
  Contains s "$domain" = false →
  domain s w = (Done s, w).
Proof.
  intros Hd Hs. rewrite (domain_set s w d Hd).
  unfold Replace. by rewrite replaceFrom_absent.
Qed.

(** X4. A command line that starts with a quoted span that is never
    closed has no token: the step panics on the first argument, before
    any subprocess is run, and leaves the process as it was. *)
Theorem When_I_run_panics_on_open_span cmd w d q first rest :
  domainVar w = Some d →
  Replace cmd "$domain" d = Join ((quoteStr q +:+ first) :: rest) " " →
  nospace first = true →
  Forall (λ m, nospace m = true ∧ HasSuffix m (quoteStr q) = false) rest →
  When_I_run env cmd w = (Panicked "runtime error: index out of range", w).
Proof.
  intros Hd Hcmd Hfirst Hrest.
  pose proof (loop_open_span [] q first rest eq_refl Hfirst Hrest) as Hloop.
  change (concat (map fragments []) ++ (quoteStr q +:+ first) :: rest)
    with ((quoteStr q +:+ first) :: rest) in Hloop.
  unfold When_I_run. unfold_M. rewrite Hd, Hcmd.
  unfold safeSplit. by rewrite Hloop.
Qed.

Lemma Then_the_output_contains_run s (w : World X) d :
  domainVar w = Some d →
  Then_the_output_contains s w =
  (Done tt,
   {| external := external w; domainVar := domainVar w;
      cleanupIds := cleanupIds w; runOutput := runOutput w;
      calls := calls w; printed := printed w;
      failures :=
        if Contains (runOutput w) (Replace s "$domain" d) then failures w
        else failures w ++ ["Output did not contain " +:+ dquote
                            +:+ Replace s "$domain" d +:+ dquote] |}).
Proof.
  intros Hd. unfold Then_the_output_contains, getRunOutput. unfold_M.
  rewrite Hd. destruct w as [x dv ids out cs ps fs]. simpl in *. subst dv.
  by destruct (Contains out (Replace s "$domain" d)).
Qed.

Lemma app_singleton_ne {A} (l : list A) x : l ++ [x] ≠ l.
Proof.
  intros H. apply (f_equal length) in H. rewrite List.length_app in H.
  simpl in H. lia.
Qed.

(** X5. After a command that exits non-zero, the output check judges
    the output of the last command that succeeded: it passes exactly
    when that earlier output contains the text, whatever the failed
    command printed. *)
Theorem output_check_after_failed_command cmd s w d arg0 args x1 out e :
  domainVar w = Some d →
  safeSplit (Replace cmd "$domain" d) = arg0 :: args →
  CombinedOutput env ("./" +:+ arg0) args (external w) = (x1, (out, Some e)) →
  ∃ w1 w2,
    When_I_run env cmd w = (Done tt, w1)
    ∧ Then_the_output_contains s w1 = (Done tt, w2)
    ∧ (failures w2 = failures w1
       ↔ Contains (runOutput w) (Replace s "$domain" d) = true).
Proof.
  intros Hd Hargs Hrun.
  pose proof (When_I_run_run env cmd w d arg0 args x1 out (Some e) Hd Hargs Hrun)
    as Hwhen.
  eexists _, _. split; [exact Hwhen|]. split.
  - by apply Then_the_output_contains_run.
  - simpl. destruct (Contains (runOutput w) (Replace s "$domain" d)).
    + done.
    + split; [|done]. intros H. by apply app_singleton_ne in H.
Qed.

Lemma uniqueReference_run w x1 n :
  randInt env (external w) = (x1, n) →
  uniqueReference env w =
  (Done (hexRef n),
   {| external := x1; domainVar := domainVar w;
      cleanupIds := cleanupIds w; runOutput := runOutput w;
      calls := calls w; printed := printed w; failures := failures w |}).
Proof. intros Hn. unfold uniqueReference. by rewrite Hn. Qed.

Lemma hexRef_decode n : HexString.Raw.to_N (hexRef n) 0%N = n.
Proof.
  destruct n as [|p]; [done|].
  unfold hexRef. by rewrite HexString.Raw.to_N_of_pos.
Qed.

Lemma app_inj_2 a b s : a +:+ s = b +:+ s → a = b.
Proof.
  revert b. induction a as [|c a IH]; intros [|c' b] H.
  - done.
  - apply (f_equal String.length) in H.
    rewrite app_cons, app_nil_l in H. simpl in H. rewrite length_app in H. lia.
  - apply (f_equal String.length) in H.
    rewrite app_cons, app_nil_l in H. simpl in H. rewrite length_app in H. lia.
  - rewrite !app_cons in H. injection H as -> H. f_equal. by apply IH.
Qed.

(** X6. [Before] names the scenario's domain after its draw from the
    generator: the name is the hexadecimal reference followed by
    [.example.com], the reference reads back as the number drawn, and
    two scenarios get the same name only when they drew the same
    number. *)
Theorem Before_names_domain_by_draw :
  (∀ w x1 n,
      randInt env (external w) = (x1, n) →
      ∃ w', Before env w = (Done tt, w')
            ∧ domainVar w' = Some (hexRef n +:+ ".example.com")
            ∧ HexString.Raw.to_N (hexRef n) 0%N = n
            ∧ cleanupIds w' = cleanupIds w
            ∧ calls w' = calls w)
  ∧ (∀ w1 w2 x1 x2 n1 n2,
      randInt env (external w1) = (x1, n1) →
      randInt env (external w2) = (x2, n2) →
      domainVar (exec (Before env) w1) = domainVar (exec (Before env) w2) →
      n1 = n2).
Proof.
  assert (∀ w x1 n, randInt env (external w) = (x1, n) →
            Before env w
            = (Done tt,
               {| external := x1;
                  domainVar := Some (hexRef n +:+ ".example.com");
                  cleanupIds := cleanupIds w; runOutput := runOutput w;
                  calls := calls w; printed := printed w;
                  failures := failures w |})) as Hrun.
  { intros w x1 n Hn. unfold Before, setDomainVar. unfold_M.
    by rewrite (uniqueReference_run w x1 n Hn). }
  split.
  - intros w x1 n Hn. eexists. split; [by apply Hrun|].
    simpl. by rewrite hexRef_decode.
  - intros w1 w2 x1 x2 n1 n2 H1 H2. unfold exec.
    rewrite (Hrun w1 x1 n1 H1), (Hrun w2 x2 n2 H2). simpl.
    intros [= H]. apply app_inj_2 in H.
    by rewrite <- (hexRef_decode n1), <- (hexRef_decode n2), H.
Qed.

End steps_more.

Lemma domain_without_placeholder_witness :
  domain "www.example.org" flakyWorld = (Done "www.example.org", flakyWorld).
Proof.
  apply (domain_without_placeholder "www.example.org" flakyWorld "cafe.example.com").
  - reflexivity.
  - vm_compute. reflexivity.
Defined.

Lemma When_I_run_panics_on_open_span_witness :
  When_I_run flakyEnv "'cli53' list $domain" flakyWorld
  = (Panicked "runtime error: index out of range", flakyWorld).
Proof.
  apply (When_I_run_panics_on_open_span flakyEnv "'cli53' list $domain" flakyWorld
           "cafe.example.com" SingleQuote "cli53'" ["list"; "cafe.example.com"]).
  - reflexivity.
  - vm_compute. reflexivity.
  - vm_compute. reflexivity.
  - vm_compute. repeat constructor.
Defined.

Lemma output_check_after_failed_command_witness :
  ∃ w1 w2,
    When_I_run flakyEnv "cli53 list" flakyWorld = (Done tt, w1)
    ∧ Then_the_output_contains "boom" w1 = (Done tt, w2)
    ∧ (failures w2 = failures w1
       ↔ strings.Contains (runOutput flakyWorld)
           (strings.Replace "boom" "$domain" "cafe.example.com") = true).
Proof.
  apply (output_check_after_failed_command flakyEnv "cli53 list" "boom" flakyWorld
           "cafe.example.com" "cli53" ["list"] 1 "boom" "exit status 1").
  - reflexivity.
  - vm_compute. reflexivity.
  - vm_compute. reflexivity.
Defined.

Lemma Before_names_domain_by_draw_witness :
  ∃ w', Before memEnv (world0 {| zones := []; nextId := 0 |}) = (Done tt, w')
        ∧ domainVar w' = Some "cafe.example.com"
        ∧ HexString.Raw.to_N "cafe" 0%N = 51966%N
        ∧ cleanupIds w' = []
        ∧ calls w' = [].
Proof.
  apply (proj1 (Before_names_domain_by_draw memEnv)
           (world0 {| zones := []; nextId := 0 |})
           {| zones := []; nextId := 0 |} 51966%N).
  reflexivity.
Defined.

(** ** Fixture lifecycle, continued *)

Section lifecycle_more.
Context {X : Type} (env : Env X).
Import strings strings_facts.

Lemma cleanupChanges_loop rrsets acc :
  fold_left
    (λ changes rrset,
       if negb (String.eqb (rrsetType rrset) "NS")
          && negb (String.eqb (rrsetType rrset) "SOA")
       then changes ++ [{| Action := "DELETE"; ChangeRecordSet := rrset |}]
       else changes)
    rrsets acc
  = acc ++ map (λ rrset, {| Action := "DELETE"; ChangeRecordSet := rrset |})
               (List.filter plainRecord rrsets).
Proof.
  revert acc. induction rrsets as [|r rrsets IH]; intros acc.
  - simpl. by rewrite List.app_nil_r.
  - cbn [fold_left List.filter]. rewrite IH. unfold plainRecord at 2.
    destruct (negb (String.eqb (rrsetType r) "NS")
              && negb (String.eqb (rrsetType r) "SOA")); [|done].
    simpl. by rewrite <- List.app_assoc.
Qed.

(** X7. The batch [cleanupDomain] builds holds one [DELETE] for every
    record set that is neither NS nor SOA, in the order of the listing,
    and nothing else; it is empty exactly when the zone holds only NS
    and SOA record sets. *)
Theorem cleanupChanges_deletes_plain_records rrsets :
  cleanupChanges rrsets
  = map (λ rrset, {| Action := "DELETE"; ChangeRecordSet := rrset |})
        (List.filter plainRecord rrsets)
  ∧ (cleanupChanges rrsets = []
     ↔ ∀ rrset, rrset ∈ rrsets →
                rrsetType rrset = "NS" ∨ rrsetType rrset = "SOA").
Proof.
  assert (cleanupChanges rrsets
          = map (λ rrset, {| Action := "DELETE"; ChangeRecordSet := rrset |})
                (List.filter plainRecord rrsets)) as Heq.
  { unfold cleanupChanges. by rewrite cleanupChanges_loop. }
  split; [exact Heq|]. rewrite Heq. split.
  - intros Hnil rrset Hin. apply map_eq_nil in Hnil.
    destruct (plainRecord rrset) eqn:Hp.
    + assert (In rrset (List.filter plainRecord rrsets)) as Hf.
      { apply filter_In. split; [by apply list_elem_of_In|done]. }
      rewrite Hnil in Hf. done.
    + unfold plainRecord in Hp. apply andb_false_iff in Hp as [Hp|Hp];
        apply negb_false_iff, String.eqb_eq in Hp; auto.
  - intros Hall. clear Heq. induction rrsets as [|r rrsets IH]; [done|].
    cbn [List.filter]. unfold plainRecord at 1.
    destruct (Hall r) as [-> | ->]; [set_solver|..]; simpl;
      apply IH; intros; apply Hall; set_solver.
Qed.

Lemma cleanupChanges_plain rrsets :
  Forall deletesPlainRecord (cleanupChanges rrsets).
Proof.
  apply Forall_forall. intros c Hc. apply list_elem_of_In in Hc.
  unfold cleanupChanges in Hc. rewrite cleanupChanges_loop in Hc. simpl in Hc.
  apply in_map_iff in Hc as [r [<- Hr]]. apply filter_In in Hr as [_ Hp].
  unfold plainRecord in Hp. apply andb_true_iff in Hp as [H1 H2].
  apply negb_true_iff, String.eqb_neq in H1, H2. done.
Qed.

(** What one [cleanupDomain] leaves behind, however it ends. *)
Lemma cleanupDomain_effect id w r w' :
  cleanupDomain env id w = (r, w') →
  ∃ new,
    calls w' = calls w ++ new
    ∧ Forall (cleanupCallFor id) new
    ∧ deleteCalls new = (if r is Done _ then [id] else [])
    ∧ cleanupIds w' = cleanupIds w
    ∧ failures w' = failures w
    ∧ runOutput w' = runOutput w
    ∧ domainVar w' = domainVar w.
Proof.
  destruct (ListAllRecordSets env id (external w)) as [x1 [rrsets err1]] eqn:Hlist.
  destruct (if (0 <? length (cleanupChanges rrsets))%nat
            then ChangeResourceRecordSets env id (cleanupChanges rrsets) x1
            else (x1, None)) as [x2 err2] eqn:Hchange.
  destruct (DeleteHostedZone env id x2) as [x3 err3] eqn:Hdelete.
  rewrite (cleanupDomain_run env id w _ _ _ _ _ _ _ Hlist Hchange Hdelete).
  destruct err1 as [e|]; intros [= <- <-]; simpl.
  - exists [CallListAllRecordSets id]. split; [done|].
    split; [|done]. constructor; [done|constructor].
  - eexists. rewrite <- (assoc_L (++)). split; [done|].
    pose proof (cleanupChanges_plain rrsets) as Hplain.
    destruct (cleanupChanges rrsets) as [|c cs] eqn:Hcs; simpl.
    + split; [|done]. constructor; [done|]. constructor; [done|constructor].
    + split; [|done]. constructor; [done|].
      constructor; [done|]. constructor; [done|constructor].
Qed.

Lemma teardown_loop_effect ids w r w' :
  forEach ids (cleanupDomain env) w = (r, w') →
  ∃ new k,
    calls w' = calls w ++ new
    ∧ Forall (λ c, ∃ id, id ∈ ids ∧ cleanupCallFor id c) new
    ∧ deleteCalls new = firstn k ids
    ∧ (r = Done tt → k = length ids)
    ∧ cleanupIds w' = cleanupIds w
    ∧ failures w' = failures w
    ∧ runOutput w' = runOutput w
    ∧ domainVar w' = domainVar w.
Proof.
  revert w. induction ids as [|id ids IH]; intros w.
  - intros [= <- <-]. exists [], 0. rewrite (right_id_L [] (++)).
    repeat split; done.
  - rewrite forEach_cons.
    destruct (cleanupDomain env id w) as [r1 w1] eqn:Hrun.
    apply cleanupDomain_effect in Hrun
      as (new1 & Hc1 & Hf1 & Hd1 & Hi1 & He1 & Ho1 & Hv1).
    assert (Forall (λ c, ∃ id0, id0 ∈ id :: ids ∧ cleanupCallFor id0 c) new1)
      as Hf1'.
    { eapply Forall_impl; [exact Hf1|]. intros c Hc. exists id. set_solver. }
    destruct r1 as [[]|msg|msg].
    + intros (new & k & Hc & Hf & Hd & Hk & Hi & He & Ho & Hv)%IH.
      exists (new1 ++ new), (S k).
      rewrite Hc, Hc1, Hi, Hi1, He, He1, Ho, Ho1, Hv, Hv1, <- (assoc_L (++)).
      split; [done|]. split.
      { apply Forall_app. split; [done|].
        eapply Forall_impl; [exact Hf|]. intros c (id0 & ? & ?).
        exists id0. set_solver. }
      split. { unfold deleteCalls in *. by rewrite omap_app, Hd1, Hd. }
      split. { intros Hr. simpl. by rewrite Hk. }
      done.
    + intros [= <- <-]. exists new1, 0. repeat split; try done; congruence.
    + intros [= <- <-]. exists new1, 0. repeat split; try done; congruence.
Qed.

(** X8. However the teardown ends, the zone deletions it attempted are
    those of a prefix of the registry, in order, each handle once per
    entry; it attempted all of them when it returned.  It reports no
    scenario failure and leaves the captured output and the domain name
    alone. *)
Theorem After_deletes_prefix_in_order w r w' :
  After env w = (r, w') →
  ∃ k, deleteCalls (calls w') = deleteCalls (calls w) ++ firstn k (cleanupIds w)
       ∧ (r = Done tt → k = length (cleanupIds w))
       ∧ failures w' = failures w
       ∧ runOutput w' = runOutput w
       ∧ domainVar w' = domainVar w.
Proof.
  rewrite After_run.
  destruct (cleanupIds w) as [|id ids] eqn:Hids.
  - intros [= <- <-]. exists 0. simpl. by rewrite (right_id_L [] (++)).
  - destruct (forEach (id :: ids) (cleanupDomain env) w) as [r1 w1] eqn:Hloop.
    apply teardown_loop_effect in Hloop
      as (new & k & Hc & _ & Hd & Hk & _ & He & Ho & Hv).
    destruct r1 as [[]|msg|msg]; intros [= <- <-]; exists k; simpl;
      rewrite Hc, deleteCalls_app, Hd; repeat split; try done; congruence.
Qed.

(** X9. Every call the teardown issues is a record listing, a record
    batch or a zone deletion for a handle of the registry: it creates no
    zone, runs no command and touches no other zone.  A batch it
    submits is never empty and deletes no NS or SOA record set. *)
Theorem After_calls_only_for_registered w r w' :
  After env w = (r, w') →
  ∃ new, calls w' = calls w ++ new
         ∧ Forall (λ c, ∃ id, id ∈ cleanupIds w ∧ cleanupCallFor id c) new.
Proof.
  rewrite After_run.
  destruct (cleanupIds w) as [|id ids] eqn:Hids.
  - intros [= <- <-]. exists []. by rewrite (right_id_L [] (++)).
  - destruct (forEach (id :: ids) (cleanupDomain env) w) as [r1 w1] eqn:Hloop.
    apply teardown_loop_effect in Hloop as (new & k & Hc & Hf & _).
    destruct r1 as [[]|msg|msg]; intros [= <- <-]; exists new; simpl; done.
Qed.

End lifecycle_more.

Lemma After_deletes_prefix_in_order_witness :
  ∃ k, deleteCalls (calls (exec (After flakyEnv) flakyWorld))
       = deleteCalls (calls flakyWorld) ++ take k (cleanupIds flakyWorld)
       ∧ (Done tt = Done tt → k = length (cleanupIds flakyWorld))
       ∧ failures (exec (After flakyEnv) flakyWorld) = failures flakyWorld
       ∧ runOutput (exec (After flakyEnv) flakyWorld) = runOutput flakyWorld
       ∧ domainVar (exec (After flakyEnv) flakyWorld) = domainVar flakyWorld.
Proof.
  apply (After_deletes_prefix_in_order flakyEnv flakyWorld (Done tt)
           (exec (After flakyEnv) flakyWorld)).
  vm_compute. reflexivity.
Defined.

Lemma After_calls_only_for_registered_witness :
  ∃ new, calls (exec (After flakyEnv) flakyWorld) = calls flakyWorld ++ new
         ∧ Forall (λ c, ∃ id, id ∈ cleanupIds flakyWorld ∧ cleanupCallFor id c) new.
Proof.
  apply (After_calls_only_for_registered flakyEnv flakyWorld (Done tt)
           (exec (After flakyEnv) flakyWorld)).
  vm_compute. reflexivity.
Defined.

(** ** Lookup and registration *)

Section lookup.
Context {X : Type} (env : Env X).
Context (bindLines : ResourceRecordSet → list string).
Import strings strings_facts.

Lemma domainId_run name w x1 zones err :
  ListHostedZones env (external w) = (x1, (zones, err)) →
  domainId env name w =
  match err with
  | Some e => (Exited ("Unexpected error: " +:+ e), listed w x1)
  | None => (Done (scanZones zones name), listed w x1)
  end.
Proof.
  intros Hlist. unfold domainId. unfold_M. rewrite Hlist. by destruct err.
Qed.

(** X10. The lookup returns the handle of the first listed zone whose
    name is the looked-up name with one dot appended, and the empty
    handle when no listed zone has that name. *)
Theorem scanZones_first_match name :
  (∀ pre zone post,
      Forall (λ z, Name z ≠ name +:+ ".") pre →
      Name zone = name +:+ "." →
      scanZones (pre ++ zone :: post) name = Id zone)
  ∧ (∀ zones,
      Forall (λ z, Name z ≠ name +:+ ".") zones →
      scanZones zones name = EmptyString).
Proof.
  split.
  - intros pre zone post Hpre Hzone. unfold scanZones.
    induction Hpre as [|z pre Hz _ IH]; simpl.
    + by rewrite Hzone, String.eqb_refl.
    + apply String.eqb_neq in Hz. by rewrite Hz.
  - intros zones Hzones. unfold scanZones.
    induction Hzones as [|z zones Hz _ IH]; simpl; [done|].
    apply String.eqb_neq in Hz. by rewrite Hz.
Qed.

(** X11. A step handler that runs before [Before] has set the domain
    name panics on the type assertion, before any call, and leaves the
    process as it was. *)
Theorem steps_panic_without_domain (w : World X) name record cmd s expected :
  domainVar w = None →
  let dead : Outcome unit * World X :=
    (Panicked "interface conversion: interface is nil, not string", w) in
  Given_I_have_a_domain env name w = dead
  ∧ When_I_run env cmd w = dead
  ∧ Then_the_domain_is_created env name w = dead
  ∧ Then_the_domain_is_deleted env name w = dead
  ∧ Then_the_domain_has_records env name expected w = dead
  ∧ Then_the_domain_has_record env bindLines name record w = dead
  ∧ Then_the_domain_doesnt_have_record env bindLines name record w = dead
  ∧ Then_the_output_contains s w = dead.
Proof.
  intros Hd dead.
  unfold Given_I_have_a_domain, When_I_run, Then_the_domain_is_created,
    Then_the_domain_is_deleted, Then_the_domain_has_records,
    Then_the_domain_has_record, Then_the_domain_doesnt_have_record,
    Then_the_output_contains.
  unfold_M. rewrite Hd. by repeat split.
Qed.

(** X12. When the zone listing fails, every step that looks a domain up
    ends the process with the fatal error: no scenario failure is
    reported and the registry is left as it was. *)
Theorem lookup_error_is_fatal w d x1 zones e name record expected :
  domainVar w = Some d →
  ListHostedZones env (external w) = (x1, (zones, Some e)) →
  let dead : Outcome unit * World X :=
    (Exited ("Unexpected error: " +:+ e), listed w x1) in
  Then_the_domain_is_created env name w = dead
  ∧ Then_the_domain_is_deleted env name w = dead
  ∧ Then_the_domain_has_records env name expected w = dead
  ∧ Then_the_domain_has_record env bindLines name record w = dead
  ∧ Then_the_domain_doesnt_have_record env bindLines name record w = dead.
Proof.
  intros Hd Hlist dead.
  assert (∀ n, domainId env n w = (Exited ("Unexpected error: " +:+ e), listed w x1))
    as Hid.
  { intros n. by rewrite (domainId_run n w x1 zones (Some e) Hlist). }
  unfold Then_the_domain_is_created, Then_the_domain_is_deleted,
    Then_the_domain_has_records, Then_the_domain_has_record,
    Then_the_domain_doesnt_have_record, hasRecord.
  unfold mbind, M_bind, bind, domain.
  repeat (rewrite ?Hd, ?Hid; simpl). by repeat split.
Qed.

(** X13. The step that confirms a creation registers the handle it
    finds, whether or not that handle is already pending, and reports
    nothing; when it finds none it reports the failure and leaves the
    registry as it was.  It issues the zone listing and no other
    call. *)
Theorem Then_the_domain_is_created_registers name w d x1 zones :
  domainVar w = Some d →
  ListHostedZones env (external w) = (x1, (zones, None)) →
  let name' := Replace name "$domain" d in
  let id := scanZones zones name' in
  ∃ w', Then_the_domain_is_created env name w = (Done tt, w')
        ∧ calls w' = calls w ++ [CallListHostedZones]
        ∧ (id ≠ EmptyString →
           cleanupIds w' = cleanupIds w ++ [id] ∧ failures w' = failures w)
        ∧ (id = EmptyString →
           cleanupIds w' = cleanupIds w
           ∧ failures w' = failures w ++ ["Domain " +:+ name' +:+ " was not created"]).
Proof.
  intros Hd Hlist name' id.
  unfold Then_the_domain_is_created.
  unfold mbind, M_bind, bind, domain. rewrite Hd.
  rewrite (domainId_run _ w x1 zones None Hlist). fold name'. fold id.
  destruct (String.eqb_spec id EmptyString) as [Hid|Hid].
  - eexists. split; [reflexivity|]. simpl. split; [done|]. split; [done|].
    intros _. done.
  - eexists. split; [reflexivity|]. simpl. split; [done|]. split; [|done].
    intros _. done.
Qed.

(** X14. [Given] creates the zone under the substituted name with a
    fresh reference and appends the handle of the created zone to the
    registry; when the creation fails the process ends with the fatal
    error and nothing is registered. *)
Theorem Given_registers_created_zone name w d x1 n x2 zone err :
  domainVar w = Some d →
  randInt env (external w) = (x1, n) →
  CreateHostedZone env (hexRef n) (Replace name "$domain" d) x1
  = (x2, (zone, err)) →
  ∃ w', calls w' = calls w
                   ++ [CallCreateHostedZone (hexRef n) (Replace name "$domain" d)]
        ∧ failures w' = failures w
        ∧ match err with
          | None => Given_I_have_a_domain env name w = (Done tt, w')
                    ∧ cleanupIds w' = cleanupIds w ++ [Id zone]
          | Some e => Given_I_have_a_domain env name w
                      = (Exited ("Unexpected error: " +:+ e), w')
                      ∧ cleanupIds w' = cleanupIds w
          end.
Proof.
  intros Hd Hn Hcreate.
  unfold Given_I_have_a_domain.
  unfold mbind, M_bind, bind, domain. rewrite Hd.
  rewrite (uniqueReference_run env w x1 n Hn).
  unfold call. simpl. rewrite Hcreate.
  destruct err as [e|]; simpl; eexists;
    (split; [|split; [|split; [reflexivity|]]]); done.
Qed.

End lookup.

Lemma scanZones_first_match_witness :
  scanZones [{| Name := "b.example.com."; Id := "Z1" |};
             {| Name := "a.example.com."; Id := "Z2" |};
             {| Name := "a.example.com."; Id := "Z3" |}] "a.example.com" = "Z2"
  ∧ scanZones [{| Name := "a.example.com"; Id := "Z1" |}] "a.example.com" = "".
Proof.
  destruct (scanZones_first_match "a.example.com") as [Hfound Habsent].
  split.
  - apply (Hfound [{| Name := "b.example.com."; Id := "Z1" |}]
             {| Name := "a.example.com."; Id := "Z2" |}
             [{| Name := "a.example.com."; Id := "Z3" |}]).
    + repeat constructor. discriminate.
    + reflexivity.
  - apply Habsent. repeat constructor. discriminate.
Defined.

Lemma steps_panic_without_domain_witness :
  When_I_run memEnv "cli53 list" (world0 {| zones := []; nextId := 0 |})
  = (Panicked "interface conversion: interface is nil, not string",
     world0 {| zones := []; nextId := 0 |}).
Proof.
  apply (steps_panic_without_domain memEnv (λ _, [])
           (world0 {| zones := []; nextId := 0 |}) "" "" "cli53 list" "" 0).
  reflexivity.
Defined.

Lemma lookup_error_is_fatal_witness :
  Then_the_domain_is_deleted deniedEnv "$domain" flakyWorld
  = (Exited "Unexpected error: AccessDenied", listed flakyWorld 1).
Proof.
  apply (lookup_error_is_fatal deniedEnv (λ _, []) flakyWorld "cafe.example.com"
           1 [] "AccessDenied" "$domain" "" 0).
  - reflexivity.
  - reflexivity.
Defined.

Lemma Then_the_domain_is_created_registers_witness :
  ∃ w', Then_the_domain_is_created memEnv "other.$domain"
          (exec two_domains_one_deleted (world0 {| zones := []; nextId := 0 |}))
        = (Done tt, w')
        ∧ cleanupIds w'
          = ["/hostedzone/Z0x0"; "/hostedzone/Z0x1"; "/hostedzone/Z0x1"]
        ∧ failures w' = [].
Proof.
  destruct (Then_the_domain_is_created_registers memEnv "other.$domain"
              (exec two_domains_one_deleted (world0 {| zones := []; nextId := 0 |}))
              "cafe.example.com"
              {| zones := [{| Name := "other.cafe.example.com.";
                              Id := "/hostedzone/Z0x1" |}];
                 nextId := 2 |}
              [{| Name := "other.cafe.example.com."; Id := "/hostedzone/Z0x1" |}]
              ltac:(vm_compute; reflexivity) ltac:(vm_compute; reflexivity))
    as (w' & Hrun & _ & Hfound & _).
  exists w'. split; [exact Hrun|].
  apply Hfound. vm_compute. discriminate.
Defined.

Lemma Given_registers_created_zone_witness :
  ∃ w', calls w' = [CallCreateHostedZone "a" "www.cafe.example.com"]
        ∧ failures w' = []
        ∧ Given_I_have_a_domain deniedEnv "www.$domain" flakyWorld
          = (Exited "Unexpected error: AccessDenied", w')
        ∧ cleanupIds w' = ["Z1"; "Z2"].
Proof.
  apply (Given_registers_created_zone deniedEnv "www.$domain" flakyWorld
           "cafe.example.com" 0 10%N 1
           {| Name := "www.cafe.example.com."; Id := "" |} (Some "AccessDenied")).
  - reflexivity.
  - reflexivity.
  - vm_compute. reflexivity.
Defined.

(** ** Zone record normalizer and zone diff, continued *)

Section zone_more.
Import strings strings_facts.

Lemma Replace_tab_cons c s :
  Replace (String c s) tab " "
  = String (if Ascii.eqb c "009" then " "%char else c) (Replace s tab " ").
Proof.
  unfold Replace, tab. cbn [replaceFrom]. rewrite prefix_cons, prefix_nil.
  destruct (ascii_dec "009" c) as [<-|Hne].
  - by rewrite app_cons, app_nil_l.
  - destruct (Ascii.eqb_spec c "009") as [->|]; done.
Qed.

Lemma Replace_tab_app s t :
  Replace (s +:+ t) tab " " = Replace s tab " " +:+ Replace t tab " ".
Proof.
  induction s as [|c s IH]; [done|].
  by rewrite app_cons, !Replace_tab_cons, app_cons, IH.
Qed.

Lemma Replace_tab_bytes s : "009"%char ∉ bytes (Replace s tab " ").
Proof.
  induction s as [|c s IH]; [by apply not_elem_of_nil|].
  rewrite Replace_tab_cons. cbn [bytes]. apply not_elem_of_cons. split; [|done].
  destruct (Ascii.eqb_spec c "009"); [done|congruence].
Qed.

Lemma Contains_byte s c : c ∉ bytes s → Contains s (String c EmptyString) = false.
Proof.
  induction s as [|c' s IH]; [done|].
  cbn [bytes]. intros [Hne Hs]%not_elem_of_cons.
  rewrite Contains_cons, prefix_cons, (IH Hs).
  by destruct (ascii_dec c c').
Qed.

Lemma byte_Contains s c : c ∈ bytes s → Contains s (String c EmptyString) = true.
Proof.
  induction s as [|c' s IH]; [by intros ?%elem_of_nil|].
  cbn [bytes]. rewrite Contains_cons, prefix_cons, prefix_nil.
  intros [->|Hs]%elem_of_cons.
  - by destruct (ascii_dec c' c').
  - by rewrite (IH Hs), orb_true_r.
Qed.

Lemma Split_bytes s sep line :
  line ∈ Split s sep →
  (sep ∉ bytes line) ∧ ∀ c, c ∈ bytes line → c ∈ bytes s.
Proof.
  revert line. induction s as [|c s IH]; intros line.
  - intros ->%list_elem_of_singleton. split; [apply not_elem_of_nil|done].
  - rewrite Split_cons. destruct (Ascii.eqb_spec c sep) as [->|Hne].
    + intros [->|Hin]%elem_of_cons.
      * split; [apply not_elem_of_nil|]. by intros c ?%elem_of_nil.
      * destruct (IH _ Hin) as [H1 H2]. split; [done|].
        intros c Hc. cbn [bytes]. set_solver.
    + destruct (Split s sep) as [|f fs] eqn:Hsplit.
      { by apply Split_nonempty in Hsplit. }
      intros [->|Hin]%elem_of_cons.
      * destruct (IH f) as [H1 H2]; [set_solver|]. cbn [bytes]. split.
        -- apply not_elem_of_cons. split; [congruence|done].
        -- intros c' [->|Hc']%elem_of_cons; set_solver.
      * destruct (IH line) as [H1 H2]; [set_solver|]. split; [done|].
        intros c' Hc'. cbn [bytes]. set_solver.
Qed.

Lemma Split_app_sep s t sep :
  Split (s +:+ String sep t) sep = Split s sep ++ Split t sep.
Proof.
  induction s as [|c s IH].
  - rewrite app_nil_l, Split_cons. by rewrite Ascii.eqb_refl.
  - rewrite app_cons, !Split_cons, IH.
    destruct (Ascii.eqb c sep); [done|].
    destruct (Split s sep) as [|f fs] eqn:Hsplit; [|done].
    by apply Split_nonempty in Hsplit.
Qed.

Lemma zoneLines_app a b :
  zoneLines (a +:+ nl +:+ b) = zoneLines a ++ zoneLines b.
Proof.
  unfold zoneLines. rewrite !Replace_tab_app.
  change (Replace nl tab " ") with nl. unfold nl.
  by rewrite app_cons, app_nil_l, Split_app_sep.
Qed.

(** X15. No stored line holds a tab or a newline: tabs have become
    spaces and newlines have ended the lines. *)
Theorem prepareZoneFile_lines_are_clean b auth line :
  line ∈ dom (prepareZoneFile b auth) →
  Contains line tab = false ∧ Contains line nl = false.
Proof.
  intros [Hin _]%elem_of_dom_prepareZoneFile. unfold zoneLines in Hin.
  apply Split_bytes in Hin as [Hnl Hsub]. split.
  - apply Contains_byte. intros Htab%Hsub. by apply Replace_tab_bytes in Htab.
  - by apply Contains_byte.
Qed.

Lemma prepareZoneFile_lines_are_clean_witness :
  Contains "a.example.com. 300 IN A 1.2.3.4" tab = false
  ∧ Contains "a.example.com. 300 IN A 1.2.3.4" nl = false.
Proof.
  apply (prepareZoneFile_lines_are_clean a_record_tabs false).
  refine (bool_decide_unpack _ _). vm_compute. exact I.
Defined.

Lemma dom_prepareZoneFile_app a b auth :
  dom (prepareZoneFile (a +:+ nl +:+ b) auth)
  = dom (prepareZoneFile a auth) ∪ dom (prepareZoneFile b auth).
Proof.
  apply set_eq. intros k.
  rewrite elem_of_union, !elem_of_dom_prepareZoneFile, zoneLines_app.
  set_solver.
Qed.

Lemma dom_prepareZoneFile_final_newline b auth :
  dom (prepareZoneFile (b +:+ nl) auth)
  = dom (prepareZoneFile b auth) ∪ {[ EmptyString ]}.
Proof.
  rewrite <- (app_nil_r nl) at 1. rewrite dom_prepareZoneFile_app. f_equal.
  apply set_eq. intros k. rewrite elem_of_dom_prepareZoneFile.
  change (zoneLines EmptyString) with [EmptyString].
  rewrite list_elem_of_singleton, elem_of_singleton.
  split; [by intros [-> _]|]. intros ->. by destruct auth.
Qed.

(** X16. Joining two blobs with a newline stores the union of what
    each stores; so a repeated blob stores nothing new, and a final
    newline adds the empty line to the set. *)
Theorem prepareZoneFile_concatenation a b auth :
  dom (prepareZoneFile (a +:+ nl +:+ b) auth)
  = dom (prepareZoneFile a auth) ∪ dom (prepareZoneFile b auth)
  ∧ prepareZoneFile (b +:+ nl +:+ b) auth = prepareZoneFile b auth
  ∧ dom (prepareZoneFile (b +:+ nl) auth)
    = dom (prepareZoneFile b auth) ∪ {[ EmptyString ]}.
Proof.
  split; [apply dom_prepareZoneFile_app|]. split.
  - apply prepareZoneFile_lines. intros k. rewrite zoneLines_app. set_solver.
  - apply dom_prepareZoneFile_final_newline.
Qed.

(** X17. A blob with a final newline against the same blob without it:
    when the blob has no empty line of its own, the report is the one
    message that the empty record is missing. *)
Theorem compareDomains_final_newline b auth errors :
  EmptyString ∉ zoneLines b →
  compareDomains_returns (b +:+ nl) b auth errors →
  errors = missingMsg EmptyString.
Proof.
  intros Hblank (missing & unexpected & Hm & Hu & ->)%compareDomains_report.
  pose proof (dom_prepareZoneFile_final_newline b auth) as Hdom.
  assert (EmptyString ∉ dom (prepareZoneFile b auth)) as Hnot.
  { rewrite elem_of_dom_prepareZoneFile. by intros [? _]. }
  rewrite Hdom in Hm, Hu.
  replace ((dom (prepareZoneFile b auth) ∪ {[EmptyString]})
           ∖ dom (prepareZoneFile b auth))
    with ({[EmptyString]} : gset string) in Hm by set_solver.
  replace (dom (prepareZoneFile b auth)
           ∖ (dom (prepareZoneFile b auth) ∪ {[EmptyString]}))
    with (∅ : gset string) in Hu by set_solver.
  rewrite elements_singleton in Hm. rewrite elements_empty in Hu.
  apply Permutation_singleton_r in Hm as ->.
  apply Permutation_nil_r in Hu as ->. simpl. by rewrite app_nil_r.
Qed.

Lemma compareDomains_final_newline_witness :
  compareDomains ("a.example.com. 300 IN A 1.2.3.4" +:+ nl)
    "a.example.com. 300 IN A 1.2.3.4" false
  = missingMsg EmptyString.
Proof.
  apply (compareDomains_final_newline "a.example.com. 300 IN A 1.2.3.4" false).
  - vm_compute. intros H. inversion H as [|? ? ? H']. inversion H'.
  - apply compareDomains_runs.
Defined.

(** X18. Comparing with authority records included is the stricter
    comparison: a line is stored without authority exactly when it is
    stored with authority and has neither [ NS ] nor [ SOA ] in it, and
    two blobs whose report is empty with authority included have an
    empty report without it. *)
Theorem including_authority_is_stricter :
  (∀ b line,
      line ∈ dom (prepareZoneFile b false)
      ↔ line ∈ dom (prepareZoneFile b true)
        ∧ Contains line " NS " = false ∧ Contains line " SOA " = false)
  ∧ (∀ expected actual errors,
      compareDomains_returns expected actual true EmptyString →
      compareDomains_returns expected actual false errors →
      errors = EmptyString).
Proof.
  assert (∀ b line,
      line ∈ dom (prepareZoneFile b false)
      ↔ line ∈ dom (prepareZoneFile b true)
        ∧ Contains line " NS " = false ∧ Contains line " SOA " = false) as Hiff.
  { intros b line. rewrite !elem_of_dom_prepareZoneFile. unfold kept.
    destruct (HasPrefix line "$ORIGIN"), (Contains line " NS "),
      (Contains line " SOA "); naive_solver. }
  split; [exact Hiff|].
  intros expected actual errors Htrue Hfalse.
  apply (compareDomains_empty _ _ _ _ Hfalse).
  pose proof (proj1 (compareDomains_empty _ _ _ _ Htrue) eq_refl) as Hdom.
  apply set_eq. intros k. rewrite !Hiff, Hdom. done.
Qed.

Lemma including_authority_is_stricter_witness :
  compareDomains zone_origin_ns_a zone_origin_ns_a false = EmptyString.
Proof.
  apply (proj2 including_authority_is_stricter zone_origin_ns_a zone_origin_ns_a).
  - assert (compareDomains zone_origin_ns_a zone_origin_ns_a true = EmptyString)
      as <- by (vm_compute; reflexivity).
    apply compareDomains_runs.
  - apply compareDomains_runs.
Defined.

(** X19. Two blobs that are equal once tabs are spaces compare equal:
    every report is empty, in particular for a blob against itself. *)
Theorem compareDomains_tabs_are_spaces expected actual auth errors :
  Replace expected tab " " = Replace actual tab " " →
  compareDomains_returns expected actual auth errors →
  errors = EmptyString.
Proof.
  intros Heq Hret. apply (compareDomains_empty _ _ _ _ Hret).
  f_equal. unfold prepareZoneFile, zoneLines. by rewrite Heq.
Qed.

Lemma compareDomains_tabs_are_spaces_witness :
  compareDomains a_record_spaces a_record_tabs true = EmptyString.
Proof.
  apply (compareDomains_tabs_are_spaces a_record_spaces a_record_tabs true).
  - vm_compute. reflexivity.
  - apply compareDomains_runs.
Defined.

(** X20. Exchanging the two blobs exchanges the two kinds of message:
    what one comparison reports missing the other reports unexpected,
    and one report is empty exactly when the other is. *)
Theorem compareDomains_exchange expected actual auth errors errors' :
  compareDomains_returns expected actual auth errors →
  compareDomains_returns actual expected auth errors' →
  (∃ missing unexpected missing' unexpected',
      errors = concatMsgs (fmap missingMsg missing ++ fmap unexpectedMsg unexpected)
      ∧ errors' = concatMsgs (fmap missingMsg missing'
                                ++ fmap unexpectedMsg unexpected')
      ∧ missing' ≡ₚ unexpected ∧ unexpected' ≡ₚ missing)
  ∧ (errors = EmptyString ↔ errors' = EmptyString).
Proof.
  intros Hret Hret'. split.
  - apply compareDomains_report in Hret as (m & u & Hm & Hu & ->).
    apply compareDomains_report in Hret' as (m' & u' & Hm' & Hu' & ->).
    exists m, u, m', u'. split; [done|]. split; [done|].
    split; [by rewrite Hm', Hu | by rewrite Hu', Hm].
  - rewrite (compareDomains_empty _ _ _ _ Hret),
      (compareDomains_empty _ _ _ _ Hret'). split; by intros ->.
Qed.

Lemma compareDomains_exchange_witness :
  compareDomains (lines2 "a" "b") (lines2 "b" "c") false = EmptyString
  ↔ compareDomains (lines2 "b" "c") (lines2 "a" "b") false = EmptyString.
Proof.
  apply (compareDomains_exchange (lines2 "a" "b") (lines2 "b" "c") false);
    apply compareDomains_runs.
Defined.

End zone_more.

(** ** The steps that read records and exports *)

Section record_steps.
Context {X : Type} (env : Env X).
Context (bindLines : ResourceRecordSet → list string).
Context (osOpen : string → X → X * option error).
Context (ReadAll : string → X → X * (string * option error)).
Context (Sprintf0 : string → string).
Import strings strings_facts.

Lemma hasRecord_run name record w x1 zones x2 rrsets err :
  ListHostedZones env (external w) = (x1, (zones, None)) →
  ListAllRecordSets env (scanZones zones name) x1 = (x2, (rrsets, err)) →
  hasRecord env bindLines name record w =
  match err with
  | Some e => (Exited ("Unexpected error: " +:+ e),
               listedRecords w x2 (scanZones zones name))
  | None => (Done (recordListed bindLines rrsets record),
             listedRecords w x2 (scanZones zones name))
  end.
Proof.
  intros Hzones Hlist. unfold hasRecord.
  unfold mbind, M_bind, bind.
  rewrite (domainId_run env name w x1 zones None Hzones).
  unfold call, listed. simpl. rewrite Hlist.
  unfold listedRecords. rewrite <- (assoc_L (++)).
  by destruct err.
Qed.

(** X21. The record-count step lists the record sets of whatever handle
    the lookup returned, the empty handle when the domain is absent.  A
    failed listing is fatal; otherwise the step reports a failure
    exactly when the number of record sets differs from the expected
    number.  The registry is never changed. *)
Theorem Then_the_domain_has_records_counts
    name expected w d x1 zones x2 rrsets err :
  domainVar w = Some d →
  ListHostedZones env (external w) = (x1, (zones, None)) →
  let id := scanZones zones (Replace name "$domain" d) in
  ListAllRecordSets env id x1 = (x2, (rrsets, err)) →
  ∃ w', calls w' = calls w ++ [CallListHostedZones; CallListAllRecordSets id]
        ∧ cleanupIds w' = cleanupIds w
        ∧ match err with
          | Some e => Then_the_domain_has_records env name expected w
                      = (Exited ("Unexpected error: " +:+ e), w')
                      ∧ failures w' = failures w
          | None => Then_the_domain_has_records env name expected w = (Done tt, w')
                    ∧ (failures w' = failures w ↔ expected = length rrsets)
          end.
Proof.
  intros Hd Hzones id Hlist.
  unfold Then_the_domain_has_records.
  unfold mbind, M_bind, bind, domain. rewrite Hd.
  rewrite (domainId_run env _ w x1 zones None Hzones). fold id.
  unfold call, listed. simpl. rewrite Hlist.
  destruct err as [e|]; simpl.
  - eexists. split; [|split; [|split; [reflexivity|]]]; simpl;
      rewrite <- ?(assoc_L (++)); done.
  - destruct (Nat.eqb_spec expected (length rrsets)) as [Heq|Hne]; simpl.
    + eexists. split; [|split; [|split; [reflexivity|]]]; simpl;
        rewrite <- ?(assoc_L (++)); done.
    + eexists. split; [|split; [|split; [reflexivity|]]]; simpl;
        rewrite <- ?(assoc_L (++)); try done.
      split; [|done]. intros H. by apply app_singleton_ne in H.
Qed.

Lemma recordListed_spec rrsets record :
  recordListed bindLines rrsets record = true
  ↔ ∃ rrset line, rrset ∈ rrsets ∧ line ∈ bindLines rrset
                   ∧ Replace line tab " " = record.
Proof.
  unfold recordListed. rewrite existsb_exists. split.
  - intros (rrset & Hin & (line & Hl & Heq%String.eqb_eq)%existsb_exists).
    exists rrset, line. by rewrite <- !list_elem_of_In in *.
  - intros (rrset & line & Hin & Hl & <-).
    exists rrset. split; [by apply list_elem_of_In|].
    apply existsb_exists. exists line. split; [by apply list_elem_of_In|].
    apply String.eqb_refl.
Qed.

(** X22. From the same state, the step that wants a record and the step
    that wants it absent issue the same two listings and disagree:
    exactly one of them reports a failure.  The record counts as
    present when some zone-file line of some listed record set, with its
    tabs made spaces, equals the record text after substitution. *)
Theorem record_steps_are_complementary name record w d x1 zones x2 rrsets :
  domainVar w = Some d →
  ListHostedZones env (external w) = (x1, (zones, None)) →
  let name' := Replace name "$domain" d in
  let record' := Replace record "$domain" d in
  ListAllRecordSets env (scanZones zones name') x1 = (x2, (rrsets, None)) →
  ∃ w1 w2,
    Then_the_domain_has_record env bindLines name record w = (Done tt, w1)
    ∧ Then_the_domain_doesnt_have_record env bindLines name record w = (Done tt, w2)
    ∧ calls w1 = calls w2
    ∧ (failures w1 = failures w ↔ failures w2 ≠ failures w)
    ∧ (failures w1 = failures w
       ↔ ∃ rrset line, rrset ∈ rrsets ∧ line ∈ bindLines rrset
                        ∧ Replace line tab " " = record').
Proof.
  intros Hd Hzones name' record' Hlist.
  unfold Then_the_domain_has_record, Then_the_domain_doesnt_have_record.
  unfold mbind, M_bind, bind, domain.
  cbn beta iota zeta. rewrite ?Hd. cbn beta iota zeta.
  fold name'. fold record'.
  rewrite (hasRecord_run name' record' w x1 zones x2 rrsets None Hzones Hlist).
  unfold Errorf, ret.
  destruct (recordListed bindLines rrsets record') eqn:Hfound; simpl.
  - eexists _, _. split; [reflexivity|]. split; [reflexivity|]. simpl.
    split; [done|]. split.
    + split; [|done]. intros _ H. by apply app_singleton_ne in H.
    + by rewrite <- recordListed_spec, Hfound.
  - eexists _, _. split; [reflexivity|]. split; [reflexivity|]. simpl.
    split; [done|]. split.
    + split; [|done]. intros H. by apply app_singleton_ne in H.
    + rewrite <- recordListed_spec, Hfound.
      split; [|done]. intros H. by apply app_singleton_ne in H.
Qed.

(** X23. Only the listed lines have their tabs made spaces, not the
    record text of the step: a record text with a tab in it matches no
    line, so the step that wants it present reports it missing. *)
Theorem record_with_tab_is_never_found name record w d x1 zones x2 rrsets :
  domainVar w = Some d →
  ListHostedZones env (external w) = (x1, (zones, None)) →
  let name' := Replace name "$domain" d in
  let record' := Replace record "$domain" d in
  ListAllRecordSets env (scanZones zones name') x1 = (x2, (rrsets, None)) →
  Contains record' tab = true →
  ∃ w1,
    Then_the_domain_has_record env bindLines name record w = (Done tt, w1)
    ∧ failures w1
      = failures w ++ ["Domain " +:+ name' +:+ ": missing record " +:+ record'].
Proof.
  intros Hd Hzones name' record' Hlist Htab.
  unfold Then_the_domain_has_record.
  unfold mbind, M_bind, bind, domain.
  cbn beta iota zeta. rewrite ?Hd. cbn beta iota zeta.
  fold name'. fold record'.
  rewrite (hasRecord_run name' record' w x1 zones x2 rrsets None Hzones Hlist).
  unfold Errorf, ret.
  destruct (recordListed bindLines rrsets record') eqn:Hfound; simpl.
  - apply recordListed_spec in Hfound as (rrset & line & _ & _ & Heq).
    pose proof (Replace_tab_bytes line) as Hclean. rewrite Heq in Hclean.
    apply Contains_byte in Hclean. unfold tab in Htab. congruence.
  - eexists. split; reflexivity.
Qed.

Lemma compareDomains_in_returns order1 order2 expected actual auth :
  (∀ m, range_order m (order1 m)) → (∀ m, range_order m (order2 m)) →
  compareDomains_returns expected actual auth
    (compareDomains_in (order1 (prepareZoneFile expected auth)) order2
       expected actual auth).
Proof.
  intros H1 H2.
  exists (order1 (prepareZoneFile expected auth)),
    (order2 (compare_remaining (order1 (prepareZoneFile expected auth))
               actual auth)).
  split; [apply H1|]. split; [apply H2|].
  unfold compareDomains_in, compare_remaining.
  by destruct (fold_left compare_expected_step _ _).
Qed.

(** X24. The export step runs the export of the binary and, when that
    succeeds, reads the reference file; it then reports a failure
    exactly when the two normalized sets differ, authority records
    counting only when the step says so.  When the export exits
    non-zero the step reports that failure and reads no file. *)
Theorem Then_the_domain_export_matches_file_compares
    order1 order2 name filename auth w d :
  (∀ m, range_order m (order1 m)) → (∀ m, range_order m (order2 m)) →
  domainVar w = Some d →
  let name' := Replace name "$domain" d in
  let includeAuth := negb (String.eqb auth EmptyString) in
  (∀ x1 actual x2 x3 expected,
      CombinedOutput env "./cli53" ["export"; name'] (external w)
      = (x1, (actual, None)) →
      osOpen filename x1 = (x2, None) →
      ReadAll filename x2 = (x3, (expected, None)) →
      ∃ w', Then_the_domain_export_matches_file env osOpen ReadAll Sprintf0
              order1 order2 name filename auth w = (Done tt, w')
            ∧ calls w' = calls w ++ [CallCommand "./cli53" ["export"; name']]
            ∧ (failures w' = failures w
               ↔ dom (prepareZoneFile expected includeAuth)
                 = dom (prepareZoneFile actual includeAuth)))
  ∧ (∀ x1 actual e,
      CombinedOutput env "./cli53" ["export"; name'] (external w)
      = (x1, (actual, Some e)) →
      ∃ w', Then_the_domain_export_matches_file env osOpen ReadAll Sprintf0
              order1 order2 name filename auth w = (Done tt, w')
            ∧ external w' = x1
            ∧ failures w' = failures w ++ ["Error: " +:+ e +:+ " Output: " +:+ actual]).
Proof.
  intros Ho1 Ho2 Hd name' includeAuth. split.
  - intros x1 actual x2 x3 expected Hrun Hopen Hread.
    pose proof (compareDomains_in_returns order1 order2 expected actual
                  includeAuth Ho1 Ho2) as Hret.
    apply compareDomains_empty in Hret.
    unfold Then_the_domain_export_matches_file.
    unfold mbind, M_bind, bind, domain. rewrite Hd. fold name'.
    unfold call, local. simpl. rewrite Hrun. simpl. rewrite Hopen. simpl.
    rewrite Hread. simpl. fold includeAuth.
    destruct (compareDomains_in _ order2 expected actual includeAuth)
      as [|c errors] eqn:Herr; simpl.
    + eexists. split; [reflexivity|]. simpl. split; [done|].
      rewrite <- Hret. done.
    + eexists. split; [reflexivity|]. simpl. split; [done|].
      rewrite <- Hret. split; [|done]. intros H. by apply app_singleton_ne in H.
  - intros x1 actual e Hrun.
    unfold Then_the_domain_export_matches_file.
    unfold mbind, M_bind, bind, domain. rewrite Hd. fold name'.
    unfold call. simpl. rewrite Hrun. simpl.
    eexists. split; [reflexivity|]. done.
Qed.

End record_steps.

Lemma Then_the_domain_has_records_counts_witness :
  ∃ w', calls w' = calls oneDomain
                   ++ [CallListHostedZones; CallListAllRecordSets "/hostedzone/Z0x0"]
        ∧ cleanupIds w' = cleanupIds oneDomain
        ∧ (Then_the_domain_has_records memEnv "$domain" 3 oneDomain = (Done tt, w')
           ∧ (failures w' = failures oneDomain
              ↔ 3 = length [rrset "zone" "NS"; rrset "zone" "SOA"])).
Proof.
  apply (Then_the_domain_has_records_counts memEnv "$domain" 3 oneDomain
           "cafe.example.com"
           {| zones := [{| Name := "cafe.example.com."; Id := "/hostedzone/Z0x0" |}];
              nextId := 1 |}
           [{| Name := "cafe.example.com."; Id := "/hostedzone/Z0x0" |}]
           {| zones := [{| Name := "cafe.example.com."; Id := "/hostedzone/Z0x0" |}];
              nextId := 1 |}
           [rrset "zone" "NS"; rrset "zone" "SOA"] None);
    vm_compute; reflexivity.
Defined.

Lemma record_steps_are_complementary_witness :
  ∃ w1 w2,
    Then_the_domain_has_record memEnv nameTabType "$domain" "zone NS" oneDomain
    = (Done tt, w1)
    ∧ Then_the_domain_doesnt_have_record memEnv nameTabType "$domain" "zone NS"
        oneDomain = (Done tt, w2)
    ∧ calls w1 = calls w2
    ∧ (failures w1 = failures oneDomain ↔ failures w2 ≠ failures oneDomain)
    ∧ (failures w1 = failures oneDomain
       ↔ ∃ rs line,
           rs ∈ [rrset "zone" "NS"; rrset "zone" "SOA"]
           ∧ line ∈ nameTabType rs
           ∧ strings.Replace line strings.tab " " = "zone NS").
Proof.
  apply (record_steps_are_complementary memEnv nameTabType "$domain" "zone NS"
           oneDomain "cafe.example.com"
           {| zones := [{| Name := "cafe.example.com."; Id := "/hostedzone/Z0x0" |}];
              nextId := 1 |}
           [{| Name := "cafe.example.com."; Id := "/hostedzone/Z0x0" |}]
           {| zones := [{| Name := "cafe.example.com."; Id := "/hostedzone/Z0x0" |}];
              nextId := 1 |}
           [rrset "zone" "NS"; rrset "zone" "SOA"]);
    vm_compute; reflexivity.
Defined.

Lemma record_with_tab_is_never_found_witness :
  ∃ w1,
    Then_the_domain_has_record memEnv nameTabType "$domain"
      ("zone" +:+ strings.tab +:+ "NS") oneDomain = (Done tt, w1)
    ∧ failures w1
      = failures oneDomain
        ++ ["Domain cafe.example.com: missing record zone" +:+ strings.tab +:+ "NS"].
Proof.
  apply (record_with_tab_is_never_found memEnv nameTabType "$domain"
           ("zone" +:+ strings.tab +:+ "NS")
           oneDomain "cafe.example.com"
           {| zones := [{| Name := "cafe.example.com."; Id := "/hostedzone/Z0x0" |}];
              nextId := 1 |}
           [{| Name := "cafe.example.com."; Id := "/hostedzone/Z0x0" |}]
           {| zones := [{| Name := "cafe.example.com."; Id := "/hostedzone/Z0x0" |}];
              nextId := 1 |}
           [rrset "zone" "NS"; rrset "zone" "SOA"]);
    vm_compute; reflexivity.
Defined.

Lemma Then_the_domain_export_matches_file_compares_witness :
  ∃ w', Then_the_domain_export_matches_file exportEnv exportOpen exportRead id
          (λ m, elements (dom m)) (λ m, elements (dom m))
          "$domain" "fixtures/a.txt" "" exportWorld = (Done tt, w')
        ∧ calls w' = calls exportWorld
                     ++ [CallCommand "./cli53" ["export"; "cafe.example.com"]]
        ∧ (failures w' = failures exportWorld
           ↔ dom (prepareZoneFile a_record_spaces false)
             = dom (prepareZoneFile a_record_tabs false)).
Proof.
  apply (proj1 (Then_the_domain_export_matches_file_compares exportEnv
                  exportOpen exportRead id
                  (λ m, elements (dom m)) (λ m, elements (dom m))
                  "$domain" "fixtures/a.txt" "" exportWorld "cafe.example.com"
                  (λ m, reflexivity _) (λ m, reflexivity _) eq_refl)
           tt a_record_tabs tt tt a_record_spaces);
    vm_compute; reflexivity.
Defined.
